(** * Observable stores of [src/components/01-basic-components.tsx]

    A shallow embedding of [createCounterStore] and [createOnlineStore]
    together with the part of the JavaScript run time they rely on: the
    insertion-ordered [Set] with its live [forEach], numbers restricted to
    the integers a counter can reach, and the event listener list of
    [window].

    The definitions come first ([JSSet], [Counter], [Online], and further
    [CounterExtra], [OnlineCalls], [WindowSize] for
    [createWindowSizeStore] and [Todos] for the [todoReducer] of
    [src/components/11-usereducer-example.tsx]), then the facts about the
    set and its iteration, then what each store guarantees ([CounterSpec],
    [OnlineSpec], [Stores]) and further properties of the code
    ([CounterMore], [OnlineMore], [WindowSizeSpec], [TodosSpec]).

    Callbacks are code of the callers.  A callback is known by a number
    (its identity as a function object) and its code is a list of actions
    on the store, given by an environment [body].  An iteration over the
    set can go on forever when callbacks keep appending entries, so every
    function that runs callbacks takes an amount of fuel. *)

From Stdlib Require Import ZArith List Bool Arith Lia.
From Stdlib Require String.
Import ListNotations.

Set Implicit Arguments.

(** A callback function object.  Two callbacks are the same object exactly
    when their numbers are equal. *)
Definition listener := nat.

(** How a call ends: it returns, it throws, or the fuel given to the model
    ran out before it finished. *)
Inductive outcome (W : Type) : Type :=
| Returned (w : W)
| Thrown (w : W)
| OutOfFuel.

Arguments Returned {W} w.
Arguments Thrown {W} w.
Arguments OutOfFuel {W}.

(** [ends_in Q o]: the call has not ended yet, or it has ended, by
    returning or by throwing, in a state that satisfies [Q]. *)
Definition ends_in (W : Type) (Q : W -> Prop) (o : outcome W) : Prop :=
  match o with
  | Returned w => Q w
  | Thrown w => Q w
  | OutOfFuel => True
  end.

(** ** [Set<() => void>] *)

Module JSSet.

(** [[SetData]]: the entries in insertion order; a deleted entry leaves an
    empty slot ([None]) behind, so that iterations in progress keep their
    position. *)
Definition t := list (option listener).

Definition holds (l : listener) (e : option listener) : bool :=
  match e with
  | Some x => Nat.eqb x l
  | None => false
  end.

Definition has (l : listener) (s : t) : bool := existsb (holds l) s.

(** [s.add(l)]: nothing when [l] is an entry already, else appended. *)
Definition add (l : listener) (s : t) : t :=
  if has l s then s else s ++ [Some l].

(** [s.delete(l)]: the entry holding [l] becomes an empty slot. *)
Fixpoint delete (l : listener) (s : t) : t :=
  match s with
  | [] => []
  | e :: r => if holds l e then None :: r else e :: delete l r
  end.

(** The entries that are not empty, in insertion order. *)
Fixpoint values (s : t) : list listener :=
  match s with
  | [] => []
  | Some l :: r => l :: values r
  | None :: r => values r
  end.

Section ForEach.
Context {W : Type}.
(** Where the set lives in the state, and what calling the callback on
    one entry does. *)
Variable entries : W -> t.
Variable callback : listener -> W -> outcome W.

(** [s.forEach(callback)] from position [index] on.  The entry list is
    read again at every step: entries appended by the callback are
    visited, entries it deleted are skipped.  An exception of the
    callback ends the iteration. *)
Fixpoint forEach (fuel index : nat) (w : W) : outcome W :=
  match fuel with
  | O => OutOfFuel
  | S fuel' =>
    match nth_error (entries w) index with
    | None => Returned w
    | Some None => forEach fuel' (S index) w
    | Some (Some l) =>
      match callback l w with
      | Returned w' => forEach fuel' (S index) w'
      | Thrown w' => Thrown w'
      | OutOfFuel => OutOfFuel
      end
    end
  end.

(** A callback is inert when, in the states that satisfy [P], it returns
    and has done to the state what [visit] does. *)
Variable visit : listener -> W -> W.
Variable P : W -> Prop.

Definition inert (l : listener) : Prop :=
  forall w, P w -> callback l w = Returned (visit l w).

Definition visit_all (ls : list listener) (w : W) : W :=
  fold_left (fun w' l => visit l w') ls w.
End ForEach.

End JSSet.

(** ** [createCounterStore] *)

Module Counter.

(** Closure variables [count] and [listeners]; [calls] is the trace of
    callback invocations, oldest first. *)
Record store := Store {
  count : Z;
  listeners : JSSet.t;
  calls : list listener
}.

Definition createCounterStore : store := Store 0 [] [].

Definition with_count (c : Z) (s : store) : store :=
  Store c (listeners s) (calls s).
Definition with_listeners (ls : JSSet.t) (s : store) : store :=
  Store (count s) ls (calls s).
Definition record (l : listener) (s : store) : store :=
  Store (count s) (listeners s) (calls s ++ [l]).

(** How often [l] has been invoked so far. *)
Definition times (l : listener) (s : store) : nat :=
  count_occ Nat.eq_dec (calls s) l.

(** [count] is a JavaScript number.  From 0, steps of one reach exactly
    the integers between -2^53 and 2^53, every one of them a double; at
    2^53 the sum with 1 lies halfway between two doubles and rounds back
    to 2^53, and likewise at -2^53. *)
Definition max_exact : Z := 2 ^ 53.
Definition js_succ (c : Z) : Z := if (c =? max_exact)%Z then c else (c + 1)%Z.
Definition js_pred (c : Z) : Z := if (c =? - max_exact)%Z then c else (c - 1)%Z.

Inductive update_op := Increment | Decrement | Reset.

(** [count++], [count--], [count = 0]. *)
Definition mutator (op : update_op) (c : Z) : Z :=
  match op with
  | Increment => js_succ c
  | Decrement => js_pred c
  | Reset => 0%Z
  end.

Definition getSnapshot (s : store) : Z := count s.

(** [subscribe(listener)]; the handle it returns is
    [() => listeners.delete(listener)], which [unsubscribe l] runs. *)
Definition subscribe (l : listener) (s : store) : store :=
  with_listeners (JSSet.add l (listeners s)) s.

Definition unsubscribe (l : listener) (s : store) : bool * store :=
  (JSSet.has l (listeners s), with_listeners (JSSet.delete l (listeners s)) s).

(** What a callback may do with the store when it is invoked. *)
Inductive action :=
| Read                        (* store.getSnapshot() *)
| Throw                       (* throw ... *)
| Subscribe (l : listener)    (* store.subscribe(l) *)
| Unsubscribe (l : listener)  (* call a handle that store.subscribe(l) returned *)
| Update (op : update_op).    (* store.increment(), .decrement(), .reset() *)

Section Callbacks.
(** The code of every callback. *)
Variable body : listener -> list action.

Section Body.
(** [notifyListeners] as seen from inside a callback. *)
Variable notify : store -> outcome store.

Fixpoint run (acts : list action) (s : store) : outcome store :=
  match acts with
  | [] => Returned s
  | Read :: k => run k s
  | Throw :: _ => Thrown s
  | Subscribe l :: k => run k (subscribe l s)
  | Unsubscribe l :: k => run k (snd (unsubscribe l s))
  | Update op :: k =>
    match notify (with_count (mutator op (count s)) s) with
    | Returned s' => run k s'
    | Thrown s' => Thrown s'
    | OutOfFuel => OutOfFuel
    end
  end.
End Body.

(** [listeners.forEach((listener) => listener())] *)
Fixpoint notifyListeners (fuel : nat) (s : store) : outcome store :=
  match fuel with
  | O => OutOfFuel
  | S fuel' =>
    JSSet.forEach listeners
      (fun l s' => run (notifyListeners fuel') (body l) (record l s'))
      fuel 0 s
  end.

Definition increment (fuel : nat) (s : store) : outcome store :=
  notifyListeners fuel (with_count (js_succ (count s)) s).
Definition decrement (fuel : nat) (s : store) : outcome store :=
  notifyListeners fuel (with_count (js_pred (count s)) s).
Definition reset (fuel : nat) (s : store) : outcome store :=
  notifyListeners fuel (with_count 0%Z s).

Definition update (op : update_op) (fuel : nat) (s : store) : outcome store :=
  match op with
  | Increment => increment fuel s
  | Decrement => decrement fuel s
  | Reset => reset fuel s
  end.

(** A callback is idle in the states that satisfy [P] when there it
    returns without changing the store. *)
Definition idle (P : store -> Prop) (l : listener) : Prop :=
  forall notify w, P w -> run notify (body l) w = Returned w.

(** A call made by the code that owns the store. *)
Inductive call :=
| CUpdate (op : update_op)
| CSubscribe (l : listener)
| CUnsubscribe (l : listener)
| CGetSnapshot.

Definition do_call (fuel : nat) (c : call) (s : store) : outcome store :=
  match c with
  | CUpdate op => update op fuel s
  | CSubscribe l => Returned (subscribe l s)
  | CUnsubscribe l => Returned (snd (unsubscribe l s))
  | CGetSnapshot => Returned s
  end.

(** One call after the other; an exception ends the sequence. *)
Fixpoint do_calls (fuel : nat) (cs : list call) (s : store) : outcome store :=
  match cs with
  | [] => Returned s
  | c :: k =>
    match do_call fuel c s with
    | Returned s' => do_calls fuel k s'
    | Thrown s' => Thrown s'
    | OutOfFuel => OutOfFuel
    end
  end.
End Callbacks.

(** [subscribe] for each callback of [ls] in turn. *)
Definition subscribe_all (ls : list listener) (s : store) : store :=
  fold_left (fun s' l => subscribe l s') ls s.

(** A callback that only reads the store. *)
Definition only_reads (acts : list action) : bool :=
  forallb (fun a => match a with Read => true | _ => false end) acts.

Definition quiet (body : listener -> list action) (l : listener) : Prop :=
  only_reads (body l) = true.

(** A callback that reads and then throws. *)
Fixpoint throws_first (acts : list action) : bool :=
  match acts with
  | Throw :: _ => true
  | Read :: k => throws_first k
  | _ => false
  end.

(** A callback that never calls [increment], [decrement] or [reset]. *)
Definition no_update (acts : list action) : bool :=
  forallb (fun a => match a with Update _ => false | _ => true end) acts.

(** No callback is an entry of the set twice. *)
Definition wf (s : store) : Prop := NoDup (JSSet.values (listeners s)).

(** The store after the callbacks [ls] have been invoked and returned
    without touching it. *)
Definition visits (ls : list listener) (s : store) : store :=
  Store (count s) (listeners s) (calls s ++ ls).

(** The update operations among a sequence of calls. *)
Fixpoint updates (cs : list call) : list update_op :=
  match cs with
  | [] => []
  | CUpdate op :: k => op :: updates k
  | _ :: k => updates k
  end.

(** [count + 1], [count - 1] and [0] over the integers. *)
Definition exact_mutator (op : update_op) (c : Z) : Z :=
  match op with
  | Increment => (c + 1)%Z
  | Decrement => (c - 1)%Z
  | Reset => 0%Z
  end.

(** Callback environments used as examples. *)

(** A callback environment in which every callback only reads. *)
Definition readers (l : listener) : list action := [Read].

(** Callback 1 subscribes callback 2, calls its own handle and throws. *)
Definition meddler (l : listener) : list action :=
  match l with
  | 1 => [Subscribe 2; Unsubscribe 1; Throw]
  | _ => [Read]
  end.

(** The second callback throws; the others only read. *)
Definition thrower (l : listener) : list action :=
  match l with
  | 2 => [Throw]
  | _ => [Read]
  end.

(** Every callback calls its own handle and subscribes itself again. *)
Definition restless (l : listener) : list action := [Unsubscribe l; Subscribe l].

(** Callback 1 subscribes callback 2; callback 3 calls the handle of
    callback 4; the others only read. *)
Definition live_demo (l : listener) : list action :=
  match l with
  | 1 => [Subscribe 2]
  | 3 => [Unsubscribe 4]
  | _ => [Read]
  end.

End Counter.

(** ** [createOnlineStore] *)

Module Online.

Inductive event := online | offline.

(** [window]'s event listener list for one event type.  A handler closure
    is known by the number of the [subscribe] call that created it. *)
Definition addEventListener (k : nat) (hs : list nat) : list nat :=
  if existsb (Nat.eqb k) hs then hs else hs ++ [k].

Definition removeEventListener (k : nat) (hs : list nat) : list nat :=
  remove Nat.eq_dec k hs.

(** Closure variables [isOnline] and [listeners]; whether [window] is
    defined and the handlers installed on it; the number of [subscribe]
    calls so far; the trace of callback invocations, oldest first; the
    number of exceptions that reached the event dispatcher. *)
Record store := Store {
  isOnline : bool;
  listeners : JSSet.t;
  has_window : bool;
  on_online : list nat;
  on_offline : list nat;
  closures : nat;
  calls : list listener;
  reported : nat
}.

(** [navigator.onLine] is read only when [window] is defined. *)
Definition createOnlineStore (has_window navigator_onLine : bool) : store :=
  Store (if has_window then navigator_onLine else true) [] has_window [] [] 0 [] 0.

Definition with_isOnline (b : bool) (s : store) : store :=
  Store b (listeners s) (has_window s) (on_online s) (on_offline s)
        (closures s) (calls s) (reported s).
Definition with_listeners (ls : JSSet.t) (s : store) : store :=
  Store (isOnline s) ls (has_window s) (on_online s) (on_offline s)
        (closures s) (calls s) (reported s).
Definition with_handlers (on off : list nat) (s : store) : store :=
  Store (isOnline s) (listeners s) (has_window s) on off
        (closures s) (calls s) (reported s).
Definition with_closures (n : nat) (s : store) : store :=
  Store (isOnline s) (listeners s) (has_window s) (on_online s) (on_offline s)
        n (calls s) (reported s).
Definition record (l : listener) (s : store) : store :=
  Store (isOnline s) (listeners s) (has_window s) (on_online s) (on_offline s)
        (closures s) (calls s ++ [l]) (reported s).
Definition report (s : store) : store :=
  Store (isOnline s) (listeners s) (has_window s) (on_online s) (on_offline s)
        (closures s) (calls s) (S (reported s)).

Definition times (l : listener) (s : store) : nat :=
  count_occ Nat.eq_dec (calls s) l.

Definition getSnapshot (s : store) : bool := isOnline s.

(** The function [subscribe] returns: the callback it deletes and, when
    [window] is defined, the handler pair it removes. *)
Record handle := Handle {
  target : listener;
  pair : option nat
}.

Definition subscribe (l : listener) (s : store) : handle * store :=
  let k := closures s in
  let s1 := with_closures (S k) (with_listeners (JSSet.add l (listeners s)) s) in
  if has_window s
  then (Handle l (Some k),
        with_handlers (addEventListener k (on_online s1))
                      (addEventListener k (on_offline s1)) s1)
  else (Handle l None, s1).

Definition unsubscribe (h : handle) (s : store) : store :=
  let s1 := with_listeners (JSSet.delete (target h) (listeners s)) s in
  match pair h with
  | Some k =>
    with_handlers (removeEventListener k (on_online s1))
                  (removeEventListener k (on_offline s1)) s1
  | None => s1
  end.

Inductive action :=
| Read                        (* onlineStore.getSnapshot() *)
| Throw                       (* throw ... *)
| Subscribe (l : listener)    (* onlineStore.subscribe(l) *)
| Unsubscribe (h : handle).   (* call a handle *)

Fixpoint run (acts : list action) (s : store) : outcome store :=
  match acts with
  | [] => Returned s
  | Read :: k => run k s
  | Throw :: _ => Thrown s
  | Subscribe l :: k => run k (snd (subscribe l s))
  | Unsubscribe h :: k => run k (unsubscribe h s)
  end.

Section Callbacks.
Variable body : listener -> list action.

(** [l()] *)
Definition invoke (l : listener) (s : store) : outcome store :=
  run (body l) (record l s).

(** [isOnline = true; listeners.forEach((l) => l())] *)
Definition handleOnline (fuel : nat) (s : store) : outcome store :=
  JSSet.forEach listeners invoke fuel 0 (with_isOnline true s).

(** [isOnline = false; listeners.forEach((l) => l())] *)
Definition handleOffline (fuel : nat) (s : store) : outcome store :=
  JSSet.forEach listeners invoke fuel 0 (with_isOnline false s).

Definition installed (ev : event) (s : store) : list nat :=
  match ev with
  | online => on_online s
  | offline => on_offline s
  end.

Definition handler (ev : event) : nat -> store -> outcome store :=
  match ev with
  | online => handleOnline
  | offline => handleOffline
  end.

(** The browser fires [ev] at [window]: the handlers installed when the
    dispatch starts are called in order, except those removed meanwhile;
    an exception of a handler is reported and the dispatch goes on. *)
Fixpoint invoke_handlers (fuel : nat) (ev : event) (snapshot : list nat)
         (s : store) : outcome store :=
  match snapshot with
  | [] => Returned s
  | k :: rest =>
    if existsb (Nat.eqb k) (installed ev s)
    then match handler ev fuel s with
         | Returned s' => invoke_handlers fuel ev rest s'
         | Thrown s' => invoke_handlers fuel ev rest (report s')
         | OutOfFuel => OutOfFuel
         end
    else invoke_handlers fuel ev rest s
  end.

Definition dispatch (fuel : nat) (ev : event) (s : store) : outcome store :=
  invoke_handlers fuel ev (installed ev s) s.
End Callbacks.

(** A callback that only reads the store. *)
Definition only_reads (acts : list action) : bool :=
  forallb (fun a => match a with Read => true | _ => false end) acts.

Definition quiet (body : listener -> list action) (l : listener) : Prop :=
  only_reads (body l) = true.

(** No callback is an entry of the set twice. *)
Definition wf (s : store) : Prop := NoDup (JSSet.values (listeners s)).

(** The store after the callbacks [ls] have been invoked and returned
    without touching it. *)
Definition visits (ls : list listener) (s : store) : store :=
  Store (isOnline s) (listeners s) (has_window s) (on_online s) (on_offline s)
        (closures s) (calls s ++ ls) (reported s).

Definition goes_online (ev : event) : bool :=
  match ev with
  | online => true
  | offline => false
  end.

(** What one handler of [ev] does when every registered callback returns
    without touching the store. *)
Definition round (ev : event) (s : store) : store :=
  visits (JSSet.values (listeners s)) (with_isOnline (goes_online ev) s).

(** Every handler installed so far is still installed: the handlers are
    those of the [subscribe] calls 0, 1, ... in this order. *)
Definition all_installed (s : store) : Prop :=
  has_window s = true /\
  on_online s = seq 0 (closures s) /\
  on_offline s = seq 0 (closures s).

(** [subscribe] for each callback of [ls] in turn, keeping the handles. *)
Fixpoint subscribe_all (ls : list listener) (s : store) : list handle * store :=
  match ls with
  | [] => ([], s)
  | l :: r =>
    let (h, s1) := subscribe l s in
    let (hs, s2) := subscribe_all r s1 in
    (h :: hs, s2)
  end.

(** Callbacks that do nothing at all. *)
Definition idlers (l : listener) : list action := [].

End Online.

(** ** More definitions for the counter store *)

Module CounterExtra.
Import Counter.

(** The counter is within the integers that a JavaScript number holds
    exactly. *)
Definition in_range (s : store) : Prop :=
  (- max_exact <= count s <= max_exact)%Z.

(** Callback 2 calls its handle and subscribes again; the others read. *)
Definition one_restless (l : listener) : list action :=
  match l with
  | 2 => [Unsubscribe 2; Subscribe 2]
  | _ => [Read]
  end.

End CounterExtra.

(** ** Calls on the online store, and [useOnlineStatus] *)

Module OnlineCalls.
Import Online.

(** The server snapshot that [useOnlineStatus] passes to
    [useSyncExternalStore]: [() => true]. *)
Definition serverSnapshot : bool := true.

(** One handle after the other. *)
Definition unsubscribe_all (hs : list handle) (s : store) : store :=
  fold_left (fun s' h => unsubscribe h s') hs s.

(** What happens to the store: a [subscribe] call, a call of a handle, or
    an event that the browser fires at [window]. *)
Inductive call :=
| CSubscribe (l : listener)
| CUnsubscribe (h : handle)
| CEvent (ev : event).

Section Callbacks.
Variable body : listener -> list action.

Definition do_call (fuel : nat) (c : call) (s : store) : outcome store :=
  match c with
  | CSubscribe l => Returned (snd (subscribe l s))
  | CUnsubscribe h => Returned (unsubscribe h s)
  | CEvent ev => dispatch body fuel ev s
  end.

Fixpoint do_calls (fuel : nat) (cs : list call) (s : store) : outcome store :=
  match cs with
  | [] => Returned s
  | c :: k =>
    match do_call fuel c s with
    | Returned s' => do_calls fuel k s'
    | Thrown s' => Thrown s'
    | OutOfFuel => OutOfFuel
    end
  end.
End Callbacks.

(** A callback that reads and then throws. *)
Fixpoint throws_first (acts : list action) : bool :=
  match acts with
  | Throw :: _ => true
  | Read :: k => throws_first k
  | _ => false
  end.

(** What one handler of [ev] does when the callbacks [ls] return without
    touching the store and the next one throws: the exception ends the
    handler and is reported. *)
Definition broken_round (ev : event) (ls : list listener) (s : store) : store :=
  report (visits ls (with_isOnline (goes_online ev) s)).

(** Callback 2 throws; the others do nothing. *)
Definition with_thrower (l : listener) : list action :=
  match l with
  | 2 => [Throw]
  | _ => []
  end.

End OnlineCalls.

(** ** [createWindowSizeStore] and [useWindowSize] *)

Module WindowSize.

(** [{ width, height }] *)
Record dims := Dims {
  width : Z;
  height : Z
}.

(** Closure variables [size] and [listeners]; whether [window] is defined,
    its [innerWidth] and [innerHeight], and the handlers installed on it
    for [resize]; the number of [subscribe] calls so far; the trace of
    callback invocations, oldest first; the number of exceptions that
    reached the event dispatcher. *)
Record store := Store {
  size : dims;
  listeners : JSSet.t;
  has_window : bool;
  inner : dims;
  on_resize : list nat;
  closures : nat;
  calls : list listener;
  reported : nat
}.

(** The window is measured only when it is defined. *)
Definition createWindowSizeStore (has_window : bool) (inner : dims) : store :=
  Store (if has_window then Dims (width inner) (height inner) else Dims 0 0)
        [] has_window inner [] 0 [] 0.

(** The server snapshot that [useWindowSize] passes to
    [useSyncExternalStore]: [() => ({ width: 0, height: 0 })]. *)
Definition serverSnapshot : dims := Dims 0 0.

Definition with_size (d : dims) (s : store) : store :=
  Store d (listeners s) (has_window s) (inner s) (on_resize s)
        (closures s) (calls s) (reported s).
Definition with_listeners (ls : JSSet.t) (s : store) : store :=
  Store (size s) ls (has_window s) (inner s) (on_resize s)
        (closures s) (calls s) (reported s).
Definition with_inner (d : dims) (s : store) : store :=
  Store (size s) (listeners s) (has_window s) d (on_resize s)
        (closures s) (calls s) (reported s).
Definition with_handlers (hs : list nat) (s : store) : store :=
  Store (size s) (listeners s) (has_window s) (inner s) hs
        (closures s) (calls s) (reported s).
Definition with_closures (n : nat) (s : store) : store :=
  Store (size s) (listeners s) (has_window s) (inner s) (on_resize s)
        n (calls s) (reported s).
Definition record (l : listener) (s : store) : store :=
  Store (size s) (listeners s) (has_window s) (inner s) (on_resize s)
        (closures s) (calls s ++ [l]) (reported s).
Definition report (s : store) : store :=
  Store (size s) (listeners s) (has_window s) (inner s) (on_resize s)
        (closures s) (calls s) (S (reported s)).

Definition times (l : listener) (s : store) : nat :=
  count_occ Nat.eq_dec (calls s) l.

Definition getSnapshot (s : store) : dims := size s.

(** The function [subscribe] returns: the callback it deletes and, when
    [window] is defined, the handler it removes. *)
Record handle := Handle {
  target : listener;
  resizer : option nat
}.

Definition subscribe (l : listener) (s : store) : handle * store :=
  let k := closures s in
  let s1 := with_closures (S k) (with_listeners (JSSet.add l (listeners s)) s) in
  if has_window s
  then (Handle l (Some k),
        with_handlers (Online.addEventListener k (on_resize s1)) s1)
  else (Handle l None, s1).

Definition unsubscribe (h : handle) (s : store) : store :=
  let s1 := with_listeners (JSSet.delete (target h) (listeners s)) s in
  match resizer h with
  | Some k => with_handlers (Online.removeEventListener k (on_resize s1)) s1
  | None => s1
  end.

Inductive action :=
| Read                        (* windowSizeStore.getSnapshot() *)
| Throw                       (* throw ... *)
| Subscribe (l : listener)    (* windowSizeStore.subscribe(l) *)
| Unsubscribe (h : handle).   (* call a handle *)

Fixpoint run (acts : list action) (s : store) : outcome store :=
  match acts with
  | [] => Returned s
  | Read :: k => run k s
  | Throw :: _ => Thrown s
  | Subscribe l :: k => run k (snd (subscribe l s))
  | Unsubscribe h :: k => run k (unsubscribe h s)
  end.

Section Callbacks.
Variable body : listener -> list action.

(** [l()] *)
Definition invoke (l : listener) (s : store) : outcome store :=
  run (body l) (record l s).

(** [size = { width: window.innerWidth, height: window.innerHeight };
    listeners.forEach((l) => l())] *)
Definition handleResize (fuel : nat) (s : store) : outcome store :=
  JSSet.forEach listeners invoke fuel 0
                (with_size (Dims (width (inner s)) (height (inner s))) s).

(** The handlers installed when the dispatch starts are called in order,
    except those removed meanwhile; an exception of a handler is reported
    and the dispatch goes on. *)
Fixpoint invoke_handlers (fuel : nat) (snapshot : list nat) (s : store)
  : outcome store :=
  match snapshot with
  | [] => Returned s
  | k :: rest =>
    if existsb (Nat.eqb k) (on_resize s)
    then match handleResize fuel s with
         | Returned s' => invoke_handlers fuel rest s'
         | Thrown s' => invoke_handlers fuel rest (report s')
         | OutOfFuel => OutOfFuel
         end
    else invoke_handlers fuel rest s
  end.

(** The user resizes the window to [d]: the browser updates [innerWidth]
    and [innerHeight] and fires [resize] at [window]. *)
Definition resize (fuel : nat) (d : dims) (s : store) : outcome store :=
  invoke_handlers fuel (on_resize s) (with_inner d s).

Inductive call :=
| CSubscribe (l : listener)
| CUnsubscribe (h : handle)
| CResize (d : dims).

Definition do_call (fuel : nat) (c : call) (s : store) : outcome store :=
  match c with
  | CSubscribe l => Returned (snd (subscribe l s))
  | CUnsubscribe h => Returned (unsubscribe h s)
  | CResize d => resize fuel d s
  end.

Fixpoint do_calls (fuel : nat) (cs : list call) (s : store) : outcome store :=
  match cs with
  | [] => Returned s
  | c :: k =>
    match do_call fuel c s with
    | Returned s' => do_calls fuel k s'
    | Thrown s' => Thrown s'
    | OutOfFuel => OutOfFuel
    end
  end.
End Callbacks.

(** A callback that only reads the store. *)
Definition only_reads (acts : list action) : bool :=
  forallb (fun a => match a with Read => true | _ => false end) acts.

Definition quiet (body : listener -> list action) (l : listener) : Prop :=
  only_reads (body l) = true.

(** No callback is an entry of the set twice. *)
Definition wf (s : store) : Prop := NoDup (JSSet.values (listeners s)).

(** The store after the callbacks [ls] have been invoked and returned
    without touching it. *)
Definition visits (ls : list listener) (s : store) : store :=
  Store (size s) (listeners s) (has_window s) (inner s) (on_resize s)
        (closures s) (calls s ++ ls) (reported s).

(** What one handler does when every registered callback returns without
    touching the store. *)
Definition round (s : store) : store :=
  visits (JSSet.values (listeners s))
         (with_size (Dims (width (inner s)) (height (inner s))) s).

(** Callbacks that do nothing at all. *)
Definition idlers (l : listener) : list action := [].

End WindowSize.

(** ** [todoReducer] of [src/components/11-usereducer-example.tsx] *)

Module Todos.
Import String.

(** [id] is a number: the literals 1 and 2 of the initial state or a
    reading of [Date.now()], an integer number of milliseconds. *)
Record Todo := mkTodo {
  id : Z;
  text : String.string;
  completed : bool
}.

(** ["all" | "active" | "completed"] *)
Inductive Filter := all | active | completed_only.

Record TodoState := mkTodoState {
  todos : list Todo;
  filter : Filter
}.

Inductive TodoAction :=
| ADD_TODO (payload : String.string)
| TOGGLE_TODO (payload : Z)
| DELETE_TODO (payload : Z)
| SET_FILTER (payload : Filter)
| CLEAR_COMPLETED
| EDIT_TODO (payload_id : Z) (payload_text : String.string).

(** [now] is what [Date.now()] returns when the reducer runs. *)
Definition todoReducer (now : Z) (state : TodoState) (action : TodoAction)
  : TodoState :=
  match action with
  | ADD_TODO payload =>
    mkTodoState (todos state ++ [mkTodo now payload false]) (filter state)
  | TOGGLE_TODO payload =>
    mkTodoState
      (map (fun todo =>
              if (id todo =? payload)%Z
              then mkTodo (id todo) (text todo) (negb (completed todo))
              else todo)
           (todos state))
      (filter state)
  | DELETE_TODO payload =>
    mkTodoState
      (List.filter (fun todo => negb (id todo =? payload)%Z) (todos state))
      (filter state)
  | SET_FILTER payload =>
    mkTodoState (todos state) payload
  | CLEAR_COMPLETED =>
    mkTodoState
      (List.filter (fun todo => negb (completed todo)) (todos state))
      (filter state)
  | EDIT_TODO payload_id payload_text =>
    mkTodoState
      (map (fun todo =>
              if (id todo =? payload_id)%Z
              then mkTodo (id todo) payload_text (completed todo)
              else todo)
           (todos state))
      (filter state)
  end.

(** The state that [UseReducerExample] starts from. *)
Definition learn_todo : Todo := mkTodo 1 "Learn useReducer"%string false.
Definition build_todo : Todo := mkTodo 2 "Build todo app"%string true.
Definition initialTodoState : TodoState :=
  mkTodoState [learn_todo; build_todo] all.

(** The todos that are shown. *)
Definition filteredTodos (state : TodoState) : list Todo :=
  List.filter
    (fun todo =>
       match filter state with
       | active => negb (completed todo)
       | completed_only => completed todo
       | all => true
       end)
    (todos state).

(** The three numbers of the footer: [todos.length],
    [todos.filter((t) => !t.completed).length] and
    [todos.filter((t) => t.completed).length]. *)
Definition total (state : TodoState) : nat := List.length (todos state).
Definition activeCount (state : TodoState) : nat :=
  List.length (List.filter (fun t => negb (completed t)) (todos state)).
Definition completedCount (state : TodoState) : nat :=
  List.length (List.filter (fun t => completed t) (todos state)).

(** The actions one after the other, each with its own clock reading. *)
Fixpoint dispatch_all (state : TodoState) (steps : list (Z * TodoAction))
  : TodoState :=
  match steps with
  | [] => state
  | (now, action) :: k => dispatch_all (todoReducer now state action) k
  end.

(** No two todos have the same id. *)
Definition unique_ids (state : TodoState) : Prop :=
  NoDup (map id (todos state)).

(** Every todo that a step adds gets an id that no todo has had so far. *)
Fixpoint fresh_clock (seen : list Z) (steps : list (Z * TodoAction)) : Prop :=
  match steps with
  | [] => True
  | (now, ADD_TODO _) :: k => ~ In now seen /\ fresh_clock (now :: seen) k
  | _ :: k => fresh_clock seen k
  end.

End Todos.

(** ** Facts about [Set] *)

Module JSSetFacts.
Import JSSet.

Lemma values_app (a b : t) : values (a ++ b) = values a ++ values b.
Proof.
  induction a as [|[x|] a IH]; simpl; [reflexivity| |assumption].
  now rewrite IH.
Qed.

Lemma has_In (l : listener) (s : t) : has l s = true <-> In l (values s).
Proof.
  unfold has. induction s as [|[x|] s IH]; simpl.
  - split; [discriminate|tauto].
  - rewrite orb_true_iff, IH, Nat.eqb_eq. tauto.
  - exact IH.
Qed.

Lemma has_false (l : listener) (s : t) : has l s = false <-> ~ In l (values s).
Proof.
  rewrite <- has_In. destruct (has l s); intuition congruence.
Qed.

Lemma has_app (l : listener) (a b : t) : has l (a ++ b) = has l a || has l b.
Proof. unfold has. apply existsb_app. Qed.

Lemma length_delete (l : listener) (s : t) : length (delete l s) = length s.
Proof.
  induction s as [|e s IH]; simpl; [reflexivity|].
  destruct (holds l e); simpl; congruence.
Qed.

Lemma delete_absent (l : listener) (s : t) : has l s = false -> delete l s = s.
Proof.
  unfold has. induction s as [|e s IH]; simpl; [reflexivity|].
  rewrite orb_false_iff. intros [He Hs]. rewrite He. now rewrite IH.
Qed.

Lemma values_delete_notin (l x : listener) (s : t) :
  In x (values (delete l s)) -> In x (values s).
Proof.
  induction s as [|[y|] s IH]; simpl; [tauto| |exact IH].
  destruct (Nat.eqb y l); simpl; tauto.
Qed.

Lemma has_delete_other (l x : listener) (s : t) :
  x <> l -> has x (delete l s) = has x s.
Proof.
  intros Hx. unfold has. induction s as [|[y|] s IH]; simpl; [reflexivity| |exact IH].
  destruct (Nat.eqb_spec y l) as [->|Hy]; simpl.
  - destruct (Nat.eqb_spec l x); [congruence|reflexivity].
  - now rewrite IH.
Qed.

Lemma NoDup_delete (l : listener) (s : t) :
  NoDup (values s) -> NoDup (values (delete l s)).
Proof.
  induction s as [|[y|] s IH]; simpl; intros H; [constructor| |auto].
  destruct (Nat.eqb y l); simpl.
  - now inversion H.
  - inversion H; subst. constructor; [|auto].
    intros Hin. now apply values_delete_notin in Hin.
Qed.

Lemma has_delete (l : listener) (s : t) :
  NoDup (values s) -> has l (delete l s) = false.
Proof.
  intros H. apply has_false. revert H.
  induction s as [|[y|] s IH]; simpl; intros H; [tauto| |auto].
  destruct (Nat.eqb_spec y l) as [->|Hy]; simpl.
  - now inversion H.
  - inversion H; subst. intros [E|Hin]; [congruence|]. now apply IH.
Qed.

Lemma NoDup_add (l : listener) (s : t) :
  NoDup (values s) -> NoDup (values (add l s)).
Proof.
  intros H. unfold add. destruct (has l s) eqn:E; [assumption|].
  rewrite values_app. simpl. apply has_false in E.
  apply NoDup_app; [assumption|repeat constructor; simpl; tauto|].
  intros x Hx [<-|[]]. contradiction.
Qed.

Lemma has_add (l : listener) (s : t) : has l (add l s) = true.
Proof.
  unfold add. destruct (has l s) eqn:E; [assumption|].
  rewrite has_app, E. simpl. now rewrite Nat.eqb_refl.
Qed.

Lemma add_add (l : listener) (s : t) : add l (add l s) = add l s.
Proof. unfold add at 1. now rewrite has_add. Qed.

Lemma has_add_other (l x : listener) (s : t) :
  x <> l -> has x (add l s) = has x s.
Proof.
  intros Hx. unfold add. destruct (has l s); [reflexivity|].
  rewrite has_app. simpl. destruct (Nat.eqb_spec l x); [congruence|].
  now rewrite !orb_false_r.
Qed.

Lemma delete_delete (l : listener) (s : t) :
  NoDup (values s) -> delete l (delete l s) = delete l s.
Proof. intros H. apply delete_absent. now apply has_delete. Qed.

Lemma length_add (l : listener) (s : JSSet.t) : length (add l s) <= S (length s).
Proof.
  unfold add. destruct (has l s); [lia|]. rewrite length_app. simpl. lia.
Qed.

Lemma In_values_add (x l : listener) (s : JSSet.t) :
  In x (values (add l s)) <-> x = l \/ In x (values s).
Proof.
  rewrite <- !has_In. destruct (Nat.eq_dec x l) as [->|Hx].
  - rewrite has_add. tauto.
  - rewrite has_add_other by assumption. tauto.
Qed.

End JSSetFacts.

(** ** Facts about [forEach] *)

Module ForEachFacts.
Import JSSet.

Lemma nth_error_middle (A : Type) (pre : list A) (e : A) (post : list A) :
  nth_error (pre ++ e :: post) (length pre) = Some e.
Proof. rewrite nth_error_app2, Nat.sub_diag by lia. reflexivity. Qed.

Section Generic.
Context {W : Type}.
Variable entries : W -> t.
Variable callback : listener -> W -> outcome W.

(** What holds of the state before the iteration and is kept by every
    callback holds when the iteration ends, however it ends. *)
Lemma forEach_invariant (Q : W -> Prop) :
  (forall l w, Q w -> ends_in Q (callback l w)) ->
  forall fuel index w, Q w -> ends_in Q (forEach entries callback fuel index w).
Proof.
  intros Hcb. induction fuel as [|fuel IH]; intros index w Hw; simpl; [exact I|].
  destruct (nth_error (entries w) index) as [[l|]|]; simpl; auto.
  specialize (Hcb l w Hw). destruct (callback l w); simpl in *; auto.
Qed.

(** Past the last entry the iteration is over. *)
Lemma forEach_end (fuel index : nat) (w : W) :
  length (entries w) <= index ->
  forEach entries callback (S fuel) index w = Returned w.
Proof.
  intros H. simpl. apply nth_error_None in H. now rewrite H.
Qed.

Lemma forEach_done (fuel index : nat) (w : W) :
  0 < fuel ->
  length (entries w) <= index ->
  forEach entries callback fuel index w = Returned w.
Proof.
  intros Hfuel H. destruct fuel as [|fuel]; [lia|]. now apply forEach_end.
Qed.

(** One step at an entry that holds a callback. *)
Lemma forEach_at (pre : t) (l : listener) (post : t) (fuel : nat) (w : W) :
  entries w = pre ++ Some l :: post ->
  forEach entries callback (S fuel) (length pre) w =
  match callback l w with
  | Returned w' => forEach entries callback fuel (S (length pre)) w'
  | Thrown w' => Thrown w'
  | OutOfFuel => OutOfFuel
  end.
Proof. intros H. simpl. now rewrite H, nth_error_middle. Qed.

(** One step at an empty slot. *)
Lemma forEach_at_empty (pre post : t) (fuel : nat) (w : W) :
  entries w = pre ++ None :: post ->
  forEach entries callback (S fuel) (length pre) w =
  forEach entries callback fuel (S (length pre)) w.
Proof. intros H. simpl. now rewrite H, nth_error_middle. Qed.

(** Inert callbacks whose [visit] leaves the entries alone and keeps [P]. *)
Variable visit : listener -> W -> W.
Variable P : W -> Prop.
Hypothesis visit_entries : forall l w, entries (visit l w) = entries w.
Hypothesis visit_P : forall l w, P w -> P (visit l w).

Lemma visit_all_entries (ls : list listener) (w : W) :
  entries (visit_all visit ls w) = entries w.
Proof.
  unfold visit_all. revert w.
  induction ls as [|l ls IH]; intros w; simpl; [reflexivity|].
  now rewrite IH, visit_entries.
Qed.

Lemma visit_all_P (ls : list listener) (w : W) : P w -> P (visit_all visit ls w).
Proof.
  unfold visit_all. revert w.
  induction ls as [|l ls IH]; intros w Hw; simpl; [assumption|].
  apply IH. now apply visit_P.
Qed.

(** Across a stretch of inert entries the iteration visits each of them
    in order and moves on. *)
Lemma forEach_inert (mid : t) :
  forall (pre post : t) (fuel : nat) (w : W),
    entries w = pre ++ mid ++ post ->
    P w ->
    (forall l, In l (values mid) -> inert callback visit P l) ->
    forEach entries callback (length mid + fuel) (length pre) w =
    forEach entries callback fuel (length pre + length mid)
            (visit_all visit (values mid) w).
Proof.
  induction mid as [|e mid IH]; intros pre post fuel w Hw HP Hin.
  - simpl. now rewrite Nat.add_0_r.
  - assert (Hnext : forall w', entries w' = entries w -> P w' ->
              forEach entries callback (length mid + fuel) (S (length pre)) w' =
              forEach entries callback fuel (length pre + length (e :: mid))
                      (visit_all visit (values mid) w')).
    { intros w' Hw' HP'.
      replace (S (length pre)) with (length (pre ++ [e]))
        by (rewrite length_app; simpl; lia).
      rewrite (IH (pre ++ [e]) post fuel w').
      - rewrite length_app. simpl. f_equal. lia.
      - rewrite Hw', Hw, <- app_assoc. reflexivity.
      - assumption.
      - intros l Hl. apply Hin. destruct e; simpl; auto. }
    change (length (e :: mid) + fuel) with (S (length mid + fuel)).
    destruct e as [l|].
    + rewrite (forEach_at pre l (mid ++ post)) by exact Hw.
      rewrite (Hin l) by (simpl; auto).
      rewrite Hnext by auto. reflexivity.
    + rewrite (forEach_at_empty pre (mid ++ post)) by exact Hw.
      rewrite Hnext by auto. reflexivity.
Qed.

(** When every entry is inert, the whole iteration returns after
    visiting each entry once, in insertion order. *)
Lemma forEach_all_inert (fuel : nat) (w : W) :
  P w ->
  (forall l, In l (values (entries w)) -> inert callback visit P l) ->
  length (entries w) < fuel ->
  forEach entries callback fuel 0 w =
  Returned (visit_all visit (values (entries w)) w).
Proof.
  intros HP Hin Hfuel.
  replace fuel with (length (entries w) + S (fuel - S (length (entries w))))
    by lia.
  rewrite (@forEach_inert (entries w) [] [] _ w); auto.
  - apply forEach_end. rewrite visit_all_entries. simpl. lia.
  - simpl. now rewrite app_nil_r.
Qed.
(** The same two steps, for use at any index and any amount of fuel. *)
Lemma forEach_inert_at (mid pre post : t) (fuel index : nat) (w : W) :
  index = length pre ->
  entries w = pre ++ mid ++ post ->
  P w ->
  (forall l, In l (values mid) -> inert callback visit P l) ->
  length mid <= fuel ->
  forEach entries callback fuel index w =
  forEach entries callback (fuel - length mid) (index + length mid)
          (visit_all visit (values mid) w).
Proof.
  intros -> Hw HP Hin Hfuel.
  replace fuel with (length mid + (fuel - length mid)) at 1 by lia.
  now apply forEach_inert with (post := post).
Qed.

Lemma forEach_at_index (pre : t) (l : listener) (post : t) (fuel index : nat) (w : W) :
  index = length pre ->
  entries w = pre ++ Some l :: post ->
  0 < fuel ->
  forEach entries callback fuel index w =
  match callback l w with
  | Returned w' => forEach entries callback (fuel - 1) (S index) w'
  | Thrown w' => Thrown w'
  | OutOfFuel => OutOfFuel
  end.
Proof.
  intros -> Hw Hfuel. destruct fuel as [|fuel]; [lia|].
  rewrite (forEach_at pre l post) by exact Hw.
  now rewrite Nat.sub_succ, Nat.sub_0_r.
Qed.

End Generic.

End ForEachFacts.

(** ** Facts about the counter store *)

Module CounterFacts.
Import JSSet JSSetFacts ForEachFacts Counter.

Lemma visit_all_record (ls : list listener) (s : store) :
  visit_all record ls s = visits ls s.
Proof.
  unfold visit_all. revert s. induction ls as [|l ls IH]; intros s; simpl.
  - unfold visits. rewrite app_nil_r. now destruct s.
  - rewrite IH. unfold visits, record. simpl. now rewrite <- app_assoc.
Qed.

Lemma times_visits (l : listener) (ls : list listener) (s : store) :
  times l (visits ls s) = times l s + count_occ Nat.eq_dec ls l.
Proof. unfold times, visits. simpl. apply count_occ_app. Qed.

Lemma count_occ_NoDup_In (l : listener) (ls : list listener) :
  NoDup ls -> In l ls -> count_occ Nat.eq_dec ls l = 1.
Proof.
  intros Hnd Hin. apply (proj1 (NoDup_count_occ' Nat.eq_dec ls) Hnd l Hin).
Qed.

(** A callback that only reads returns and leaves the store as it is. *)
Lemma run_only_reads (notify : store -> outcome store) (acts : list action)
      (s : store) :
  only_reads acts = true -> run notify acts s = Returned s.
Proof.
  induction acts as [|a acts IH]; simpl; [reflexivity|].
  destruct a; try discriminate. exact IH.
Qed.

Section Body.
Variable body : listener -> list action.

(** With quiet callbacks only, a pass invokes every entry once, in insertion
    order, and returns. *)
Lemma notify_quiet (fuel : nat) (s : store) :
  (forall l, In l (values (listeners s)) -> quiet body l) ->
  length (listeners s) < fuel ->
  notifyListeners body fuel s = Returned (visits (values (listeners s)) s).
Proof.
  intros Hq Hfuel. destruct fuel as [|fuel]; [lia|].
  cbn [notifyListeners]. rewrite <- visit_all_record.
  apply (@forEach_all_inert store listeners _ record (fun _ => True)); auto.
  intros l Hl w _. apply run_only_reads. now apply Hq.
Qed.

Lemma update_quiet (op : update_op) (fuel : nat) (s : store) :
  (forall l, In l (values (listeners s)) -> quiet body l) ->
  length (listeners s) < fuel ->
  update body op fuel s =
  Returned (visits (values (listeners s)) (with_count (mutator op (count s)) s)).
Proof.
  intros Hq Hfuel.
  destruct op; unfold update, increment, decrement, reset;
    now rewrite notify_quiet.
Qed.

(** Whatever the callbacks do, a pass keeps every property of the store
    that [subscribe], the handles, the trace and the updates made by the
    callbacks keep. *)
Lemma run_invariant (Q : store -> Prop) (notify : store -> outcome store)
      (acts : list action) :
  (forall l s, Q s -> Q (subscribe l s)) ->
  (forall l s, Q s -> Q (snd (unsubscribe l s))) ->
  (forall op s, In (Update op) acts -> Q s ->
                Q (with_count (mutator op (count s)) s)) ->
  (forall s, Q s -> ends_in Q (notify s)) ->
  forall s, Q s -> ends_in Q (run notify acts s).
Proof.
  intros Hsub Hunsub Hupd Hnotify.
  induction acts as [|a acts IH]; intros s Hs; simpl; [assumption|].
  assert (IH' : forall s, Q s -> ends_in Q (run notify acts s)).
  { apply IH. intros op s' Hin. apply Hupd. now right. }
  destruct a as [| |l|l|op].
  - now apply IH'.
  - exact Hs.
  - apply IH'. exact (Hsub l s Hs).
  - apply IH'. exact (Hunsub l s Hs).
  - assert (Hc : Q (with_count (mutator op (count s)) s))
      by (apply Hupd; [now left|assumption]).
    specialize (Hnotify _ Hc).
    destruct (notify (with_count (mutator op (count s)) s)); simpl in *; auto.
Qed.

Lemma notify_invariant (Q : store -> Prop) :
  (forall l s, Q s -> Q (subscribe l s)) ->
  (forall l s, Q s -> Q (snd (unsubscribe l s))) ->
  (forall l s, Q s -> Q (record l s)) ->
  (forall l op s, In (Update op) (body l) -> Q s ->
                  Q (with_count (mutator op (count s)) s)) ->
  forall fuel s, Q s -> ends_in Q (notifyListeners body fuel s).
Proof.
  intros Hsub Hunsub Hrec Hupd.
  induction fuel as [|fuel IH]; intros s Hs; [exact I|].
  cbn [notifyListeners]. apply forEach_invariant; [|assumption].
  intros l w Hw. apply run_invariant; auto.
  intros op s'. apply Hupd.
Qed.

Lemma record_visits (l : listener) (ls : list listener) (s : store) :
  record l (visits ls s) = visits (ls ++ [l]) s.
Proof. unfold record, visits. simpl. now rewrite <- app_assoc. Qed.

Lemma quiet_idle (P : store -> Prop) (l : listener) : quiet body l -> idle body P l.
Proof. intros Hq notify w _. now apply run_only_reads. Qed.

Lemma notify_idle (P : store -> Prop) (fuel : nat) (s : store) :
  (forall l w, P w -> P (record l w)) ->
  P s ->
  (forall l, In l (values (listeners s)) -> idle body P l) ->
  length (listeners s) < fuel ->
  notifyListeners body fuel s = Returned (visits (values (listeners s)) s).
Proof.
  intros HP Hs Hidle Hfuel. destruct fuel as [|fuel]; [lia|].
  cbn [notifyListeners]. rewrite <- visit_all_record.
  apply (@forEach_all_inert store listeners _ record P); auto.
  intros l Hl w Hw. apply Hidle; auto.
Qed.

(** A pass in which one callback [a] acts on the store as [g] does, while
    the entries before it, and the entries that follow it once it has
    acted, are quiet. *)
Lemma pass_with_one_actor (fuel : nat) (s : store) (pre : JSSet.t) (a : listener)
      (post : JSSet.t) (g : store -> store) (front rest : JSSet.t) :
  listeners s = pre ++ Some a :: post ->
  (forall x, In x (values pre) -> quiet body x) ->
  (forall notify w, run notify (body a) w = Returned (g w)) ->
  listeners (g (visits (values pre ++ [a]) s)) = front ++ rest ->
  length front = S (length pre) ->
  (forall x, In x (values rest) -> quiet body x) ->
  S (length pre + length rest) < fuel ->
  notifyListeners body fuel s =
  Returned (visits (values rest) (g (visits (values pre ++ [a]) s))).
Proof.
  intros Hs Hpre Ha Hg Hfront Hrest Hfuel.
  destruct fuel as [|n]; [lia|]. cbn [notifyListeners].
  set (cb := fun l s' => run (notifyListeners body n) (body l) (record l s')).
  assert (Hin : forall x, quiet body x -> inert cb record (fun _ => True) x).
  { intros x Hx w _. apply run_only_reads. exact Hx. }
  rewrite (@forEach_inert_at store listeners cb record (fun _ => True)
             (fun _ _ => eq_refl) (fun _ _ _ => I) pre [] (Some a :: post));
    auto; [|lia].
  rewrite visit_all_record.
  rewrite (@forEach_at_index store listeners cb pre a post);
    [|simpl; lia|exact Hs|lia].
  assert (Hcb : cb a (visits (values pre) s) =
                Returned (g (visits (values pre ++ [a]) s)))
    by (unfold cb; now rewrite Ha, record_visits).
  rewrite Hcb.
  rewrite (@forEach_inert_at store listeners cb record (fun _ => True)
             (fun _ _ => eq_refl) (fun _ _ _ => I) rest front []);
    auto; [|now rewrite app_nil_r|lia].
  rewrite visit_all_record. apply forEach_done; [lia|].
  simpl. rewrite Hg, length_app. lia.
Qed.

(** Callbacks that read and then throw. *)
Lemma run_throws_first (notify : store -> outcome store) (acts : list action)
      (s : store) :
  throws_first acts = true -> run notify acts s = Thrown s.
Proof.
  induction acts as [|x acts IH]; simpl; [discriminate|].
  destruct x; try discriminate; auto.
Qed.

(** A pass that meets a throwing callback after quiet ones ends there. *)
Lemma pass_until_throw (fuel : nat) (s : store) (pre : JSSet.t) (t : listener)
      (post : JSSet.t) :
  listeners s = pre ++ Some t :: post ->
  (forall x, In x (values pre) -> quiet body x) ->
  throws_first (body t) = true ->
  length pre < fuel ->
  notifyListeners body fuel s = Thrown (visits (values pre ++ [t]) s).
Proof.
  intros Hs Hpre Ht Hfuel.
  destruct fuel as [|n]; [lia|]. cbn [notifyListeners].
  set (cb := fun l s' => run (notifyListeners body n) (body l) (record l s')).
  rewrite (@forEach_inert_at store listeners cb record (fun _ => True)
             (fun _ _ => eq_refl) (fun _ _ _ => I) pre [] (Some t :: post));
    auto; [|intros x Hx w _; apply run_only_reads; now apply Hpre|lia].
  rewrite visit_all_record.
  rewrite (@forEach_at_index store listeners cb pre t post);
    [|simpl; lia|exact Hs|lia].
  assert (Hcb : cb t (visits (values pre) s) = Thrown (visits (values pre ++ [t]) s))
    by (unfold cb; now rewrite run_throws_first, record_visits).
  now rewrite Hcb.
Qed.

(** A callback that is not registered is not invoked by any number of
    updates, when the registered ones are idle. *)
Lemma updates_idle (P : store -> Prop) (l : listener) (ops : list update_op) :
  (forall x w, P w -> P (record x w)) ->
  (forall c w, P w -> P (with_count c w)) ->
  forall (fuel : nat) (s : store),
    P s ->
    (forall x, In x (values (listeners s)) -> idle body P x) ->
    ~ In l (values (listeners s)) ->
    length (listeners s) < fuel ->
    exists s',
      do_calls body fuel (map CUpdate ops) s = Returned s' /\
      listeners s' = listeners s /\
      times l s' = times l s.
Proof.
  intros Hrec Hcnt.
  assert (Hvis : forall ls w, P w -> P (visits ls w)).
  { intros ls w Hw. rewrite <- visit_all_record. now apply visit_all_P. }
  induction ops as [|op ops IH]; intros fuel s Hs Hidle Hl Hfuel.
  - exists s. repeat split.
  - cbn [map do_calls do_call].
    assert (E : update body op fuel s =
                Returned (visits (values (listeners s))
                                 (with_count (mutator op (count s)) s))).
    { destruct op; unfold update, increment, decrement, reset;
        now rewrite (@notify_idle P) by auto. }
    rewrite E.
    destruct (IH fuel (visits (values (listeners s))
                              (with_count (mutator op (count s)) s)))
      as (s' & E' & L & T); auto.
    exists s'. split; [exact E'|]. split; [exact L|].
    rewrite T, times_visits.
    rewrite (proj1 (count_occ_not_In Nat.eq_dec _ _) Hl). unfold times. simpl. lia.
Qed.

End Body.
End CounterFacts.

(** ** What the counter store guarantees *)

Module CounterSpec.
Import JSSet JSSetFacts ForEachFacts Counter CounterFacts.

(** Below 2^53 in absolute value the counter's arithmetic is that of the
    integers. *)
Lemma mutator_exact (op : update_op) (c : Z) :
  (Z.abs c < max_exact)%Z ->
  mutator op c = exact_mutator op c /\ (Z.abs (exact_mutator op c) <= Z.abs c + 1)%Z.
Proof.
  intros H. destruct op; simpl; unfold js_succ, js_pred.
  - destruct (Z.eqb_spec c max_exact); lia.
  - destruct (Z.eqb_spec c (- max_exact)); lia.
  - lia.
Qed.

Lemma mutators_exact_from (ops : list update_op) :
  forall c, (Z.abs c + Z.of_nat (length ops) <= max_exact)%Z ->
  fold_left (fun v op => mutator op v) ops c =
  fold_left (fun v op => exact_mutator op v) ops c.
Proof.
  induction ops as [|op ops IH]; intros c H; [reflexivity|].
  cbn [fold_left]. cbn [length] in H.
  destruct (@mutator_exact op c) as [E B]; [lia|].
  rewrite E. apply IH. lia.
Qed.

Section Body.
Variable body : listener -> list action.

(** Updates on a store without listeners. *)
Lemma updates_without_listeners (ops : list update_op) :
  forall (fuel : nat) (s : store),
    listeners s = [] ->
    do_calls body (S fuel) (map CUpdate ops) s =
    Returned (with_count (fold_left (fun v op => mutator op v) ops (count s)) s).
Proof.
  induction ops as [|op ops IH]; intros fuel s Hs.
  - simpl. now destruct s.
  - cbn [map do_calls do_call].
    assert (E : update body op (S fuel) s =
                Returned (with_count (mutator op (count s)) s)).
    { destruct op; unfold update, increment, decrement, reset;
        cbn [notifyListeners]; apply forEach_end; simpl; rewrite Hs; simpl; lia. }
    rewrite E, IH by exact Hs. reflexivity.
Qed.

(** Any calls on a store whose callbacks are all quiet. *)
Lemma calls_with_quiet_listeners (cs : list call) :
  (forall l, quiet body l) ->
  forall (fuel : nat) (s : store),
    length (listeners s) + length cs < fuel ->
    exists s', do_calls body fuel cs s = Returned s' /\
               count s' = fold_left (fun v op => mutator op v) (updates cs) (count s).
Proof.
  intros Hq. induction cs as [|c cs IH]; intros fuel s Hfuel.
  - exists s. split; reflexivity.
  - cbn [length] in Hfuel. cbn [do_calls]. destruct c as [op|l|l|]; cbn [do_call updates].
    + rewrite update_quiet by (auto; lia).
      destruct (IH fuel (visits (values (listeners s))
                                (with_count (mutator op (count s)) s)))
        as (s' & E & C); [simpl; lia|].
      exists s'. split; [exact E|]. rewrite C. reflexivity.
    + destruct (IH fuel (subscribe l s)) as (s' & E & C).
      { simpl. pose proof (length_add l (listeners s)). lia. }
      exists s'. split; [exact E|]. rewrite C. reflexivity.
    + destruct (IH fuel (snd (unsubscribe l s))) as (s' & E & C).
      { simpl. rewrite length_delete. lia. }
      exists s'. split; [exact E|]. rewrite C. reflexivity.
    + destruct (IH fuel s) as (s' & E & C); [lia|].
      exists s'. split; [exact E|]. rewrite C. reflexivity.
Qed.

End Body.

Lemma wf_subscribe (l : listener) (s : store) : wf s -> wf (subscribe l s).
Proof. apply NoDup_add. Qed.

Lemma wf_unsubscribe (l : listener) (s : store) :
  wf s -> wf (snd (unsubscribe l s)).
Proof. apply NoDup_delete. Qed.

Section Passes.
Variable body : listener -> list action.

(** Every store reached from a new one is well formed, whatever the
    callbacks do. *)
Lemma wf_do_calls (cs : list call) :
  forall (fuel : nat) (s : store),
    wf s -> ends_in wf (do_calls body fuel cs s).
Proof.
  induction cs as [|c cs IH]; intros fuel s Hs; [exact Hs|].
  cbn [do_calls].
  assert (H : ends_in wf (do_call body fuel c s)).
  { destruct c as [op|l|l|]; cbn [do_call ends_in].
    - assert (Hc : forall v, wf (with_count v s)) by (intros v; exact Hs).
      destruct op; unfold update, increment, decrement, reset;
        apply notify_invariant; auto using wf_subscribe, wf_unsubscribe.
    - now apply wf_subscribe.
    - now apply wf_unsubscribe.
    - exact Hs. }
  destruct (do_call body fuel c s); simpl in *; auto.
Qed.

Lemma reachable_wf (cs : list call) (fuel : nat) :
  ends_in wf (do_calls body fuel cs createCounterStore).
Proof. apply wf_do_calls. constructor. Qed.

(** With quiet callbacks, one update invokes every registered callback
    exactly once and no other callback. *)
Lemma update_invokes_each_once (op : update_op) (fuel : nat) (s : store) :
  wf s ->
  (forall l, In l (values (listeners s)) -> quiet body l) ->
  length (listeners s) < fuel ->
  exists s',
    update body op fuel s = Returned s' /\
    count s' = mutator op (count s) /\
    listeners s' = listeners s /\
    (forall l, In l (values (listeners s)) -> times l s' = times l s + 1) /\
    (forall l, ~ In l (values (listeners s)) -> times l s' = times l s).
Proof.
  intros Hwf Hq Hfuel. eexists. split; [now apply update_quiet|].
  split; [reflexivity|]. split; [reflexivity|]. split; intros l Hl.
  - rewrite times_visits. now rewrite count_occ_NoDup_In.
  - rewrite times_visits.
    rewrite (proj1 (count_occ_not_In Nat.eq_dec _ _) Hl). unfold times. simpl. lia.
Qed.

(** A callback that is not registered is not invoked by any number of
    updates, when the registered ones are quiet. *)
Lemma updates_skip_unregistered (l : listener) (ops : list update_op) :
  forall (fuel : nat) (s : store),
    (forall x, In x (values (listeners s)) -> quiet body x) ->
    ~ In l (values (listeners s)) ->
    length (listeners s) < fuel ->
    exists s',
      do_calls body fuel (map CUpdate ops) s = Returned s' /\
      listeners s' = listeners s /\
      times l s' = times l s.
Proof.
  induction ops as [|op ops IH]; intros fuel s Hq Hl Hfuel.
  - exists s. repeat split.
  - cbn [map do_calls do_call]. rewrite update_quiet by assumption.
    destruct (IH fuel (visits (values (listeners s))
                              (with_count (mutator op (count s)) s)))
      as (s' & E & L & T); auto.
    exists s'. split; [exact E|]. split; [exact L|].
    rewrite T, times_visits.
    rewrite (proj1 (count_occ_not_In Nat.eq_dec _ _) Hl). unfold times. simpl. lia.
Qed.

End Passes.

(** Claim C1.  After any sequence of [increment], [decrement] and [reset]
    calls on a new counter store, [getSnapshot] returns the mutators folded
    over 0 in call order: before the first call it returns 0; with no
    listener registered every update returns; the same holds when calls of
    [subscribe], of handles and of [getSnapshot] on quiet callbacks come in
    between; and up to 2^53 updates the mutators are [+1], [-1] and [0] over
    the integers. *)
Theorem snapshot_folds_mutators (body : listener -> list action) :
  getSnapshot createCounterStore = 0%Z /\
  (forall (ops : list update_op) (fuel : nat),
      exists s,
        do_calls body (S fuel) (map CUpdate ops) createCounterStore = Returned s /\
        listeners s = [] /\
        getSnapshot s = fold_left (fun v op => mutator op v) ops 0%Z) /\
  (forall (cs : list call) (fuel : nat),
      (forall l, quiet body l) ->
      length cs < fuel ->
      exists s,
        do_calls body fuel cs createCounterStore = Returned s /\
        getSnapshot s = fold_left (fun v op => mutator op v) (updates cs) 0%Z) /\
  (forall ops : list update_op,
      (Z.of_nat (length ops) <= max_exact)%Z ->
      fold_left (fun v op => mutator op v) ops 0%Z =
      fold_left (fun v op => exact_mutator op v) ops 0%Z).
Proof.
  split; [reflexivity|]. split; [|split].
  - intros ops fuel. eexists. split.
    + apply updates_without_listeners. reflexivity.
    + split; reflexivity.
  - intros cs fuel Hq Hfuel.
    destruct (@calls_with_quiet_listeners body cs Hq fuel createCounterStore)
      as (s & E & C); [simpl; lia|].
    exists s. split; [exact E|exact C].
  - intros ops H. apply mutators_exact_from. simpl. lia.
Qed.

Lemma snapshot_folds_mutators_witness :
  (exists s,
      do_calls readers 5
               [CSubscribe 1; CUpdate Increment; CUpdate Increment; CUpdate Decrement]
               createCounterStore = Returned s /\
      getSnapshot s = 1%Z) /\
  fold_left (fun v op => mutator op v) [Increment; Reset; Decrement] 0%Z =
  fold_left (fun v op => exact_mutator op v) [Increment; Reset; Decrement] 0%Z.
Proof.
  split.
  - apply (proj1 (proj2 (proj2 (snapshot_folds_mutators readers)))
             [CSubscribe 1; CUpdate Increment; CUpdate Increment; CUpdate Decrement] 5).
    + intros l. reflexivity.
    + simpl. lia.
  - apply (proj2 (proj2 (proj2 (snapshot_folds_mutators readers)))).
    vm_compute. discriminate.
Defined.

(** Claim C9.  [getSnapshot] reads [count] and changes nothing, as a call
    of the owner and inside a callback; [subscribe] and the handles keep
    the value; a call that is not an update returns with the value it
    found; and a notification pass whose callbacks never call an update
    ends with the value it started with, whatever else they do. *)
Theorem value_changes_only_by_updates (body : listener -> list action) :
  (forall s, getSnapshot s = count s) /\
  (forall fuel s, do_call body fuel CGetSnapshot s = Returned s) /\
  (forall notify k s, run notify (Read :: k) s = run notify k s) /\
  (forall l s, getSnapshot (subscribe l s) = getSnapshot s) /\
  (forall l s, getSnapshot (snd (unsubscribe l s)) = getSnapshot s) /\
  (forall c fuel s,
      (forall op, c <> CUpdate op) ->
      exists s', do_call body fuel c s = Returned s' /\
                 getSnapshot s' = getSnapshot s) /\
  (forall fuel s,
      (forall l, no_update (body l) = true) ->
      ends_in (fun s' => getSnapshot s' = getSnapshot s)
              (notifyListeners body fuel s)).
Proof.
  do 5 (split; [reflexivity|]). split.
  - intros c fuel s H.
    destruct c as [op|l|l|]; try (eexists; split; reflexivity).
    now contradiction (H op).
  - intros fuel s Hno. apply notify_invariant; try reflexivity.
    + intros l s' Hs'. exact Hs'.
    + intros l s' Hs'. exact Hs'.
    + intros l s' Hs'. exact Hs'.
    + intros l op s' Hin. exfalso. specialize (Hno l).
      unfold no_update in Hno. rewrite forallb_forall in Hno.
      specialize (Hno _ Hin). discriminate.
Qed.

Lemma value_changes_only_by_updates_witness :
  (exists s', do_call meddler 3 (CSubscribe 1) createCounterStore = Returned s' /\
              getSnapshot s' = getSnapshot createCounterStore) /\
  ends_in (fun s' => getSnapshot s' = 7%Z)
          (notifyListeners meddler 3 (Store 7 [Some 1] [])).
Proof.
  pose proof (value_changes_only_by_updates meddler)
    as (_ & _ & _ & _ & _ & Hcall & Hpass).
  split.
  - apply Hcall. intros op. discriminate.
  - apply (Hpass 3 (Store 7 [Some 1] [])).
    intros l. destruct l as [|[|l]]; reflexivity.
Defined.

(** Claim C6.  After a handle has been called once, calling it again, any
    number of times, returns and leaves the whole store as it is; and in
    any state of the store a call of a handle keeps the value, the trace
    and the registration of every other callback, and changes nothing when
    its own callback is not registered. *)
Theorem unsubscribe_again_is_noop (body : listener -> list action)
        (l : listener) (s : store) :
  wf s ->
  (forall fuel, do_call body fuel (CUnsubscribe l) (snd (unsubscribe l s)) =
                Returned (snd (unsubscribe l s))) /\
  (forall n, Nat.iter n (fun t => snd (unsubscribe l t)) (snd (unsubscribe l s)) =
             snd (unsubscribe l s)) /\
  (forall t,
      getSnapshot (snd (unsubscribe l t)) = getSnapshot t /\
      calls (snd (unsubscribe l t)) = calls t /\
      (forall x, x <> l ->
                 has x (listeners (snd (unsubscribe l t))) = has x (listeners t)) /\
      (has l (listeners t) = false -> snd (unsubscribe l t) = t)).
Proof.
  intros Hwf.
  assert (E : snd (unsubscribe l (snd (unsubscribe l s))) = snd (unsubscribe l s)).
  { unfold unsubscribe, with_listeners. simpl. now rewrite delete_delete. }
  split; [|split].
  - intros fuel. cbn [do_call]. now rewrite E.
  - induction n as [|n IH]; [reflexivity|]. rewrite Nat.iter_succ, IH. exact E.
  - intros t. repeat split.
    + intros x Hx. simpl. now apply has_delete_other.
    + intros Hl. unfold unsubscribe, with_listeners. simpl.
      rewrite delete_absent by assumption. now destruct t.
Qed.

Lemma unsubscribe_again_is_noop_witness :
  let s := subscribe 2 (subscribe 1 createCounterStore) in
  wf s /\
  Nat.iter 3 (fun t => snd (unsubscribe 1 t)) (snd (unsubscribe 1 s)) =
  snd (unsubscribe 1 s) /\
  has 2 (listeners (snd (unsubscribe 1 (snd (unsubscribe 1 s))))) = true.
Proof.
  assert (Hwf : wf (subscribe 2 (subscribe 1 createCounterStore))).
  { unfold wf. simpl. repeat constructor; simpl; intuition discriminate. }
  pose proof (unsubscribe_again_is_noop readers 1 Hwf) as (_ & Hn & Ht).
  split; [exact Hwf|]. split.
  - apply Hn.
  - destruct (Ht (snd (unsubscribe 1 (subscribe 2 (subscribe 1 createCounterStore)))))
      as (_ & _ & Hx & _).
    rewrite Hx by discriminate. reflexivity.
Defined.

Lemma In_values_delete (x l : listener) (s : JSSet.t) :
  NoDup (values s) -> In x (values (delete l s)) -> x <> l /\ In x (values s).
Proof.
  intros Hnd Hx. split.
  - intros ->. apply has_In in Hx. rewrite has_delete in Hx by assumption.
    discriminate.
  - now apply values_delete_notin in Hx.
Qed.

(** Claim C7.  Once its handle has been called, a callback is not invoked
    by the next update nor by any later one, as long as the callbacks that
    remain registered are quiet; in particular after [subscribe(L1)],
    [subscribe(L2)] and a call of the handle of [L1], one update invokes
    [L2] once and [L1] not at all. *)
Theorem unsubscribed_listener_is_not_invoked (body : listener -> list action) :
  (forall (s : store) (l : listener) (ops : list update_op) (fuel : nat),
      wf s ->
      (forall x, In x (values (listeners s)) -> x <> l -> quiet body x) ->
      length (listeners s) < fuel ->
      exists s',
        do_calls body fuel (map CUpdate ops) (snd (unsubscribe l s)) = Returned s' /\
        times l s' = times l s) /\
  (forall (L1 L2 : listener) (op : update_op) (fuel : nat),
      L1 <> L2 ->
      quiet body L2 ->
      2 < fuel ->
      exists s',
        update body op fuel
               (snd (unsubscribe L1 (subscribe L2 (subscribe L1 createCounterStore))))
        = Returned s' /\
        calls s' = [L2] /\ times L2 s' = 1 /\ times L1 s' = 0).
Proof.
  split.
  - intros s l ops fuel Hwf Hq Hfuel.
    destruct (@updates_skip_unregistered body l ops fuel (snd (unsubscribe l s)))
      as (s' & E & _ & T).
    + intros x Hx. simpl in Hx. apply In_values_delete in Hx; [|exact Hwf].
      destruct Hx. now apply Hq.
    + simpl. apply has_false. now apply has_delete.
    + simpl. now rewrite length_delete.
    + exists s'. split; [exact E|]. rewrite T. reflexivity.
  - intros L1 L2 op fuel Hne Hq Hfuel.
    assert (E : snd (unsubscribe L1 (subscribe L2 (subscribe L1 createCounterStore)))
                = Store 0 [None; Some L2] []).
    { unfold unsubscribe, subscribe, with_listeners, add. simpl.
      rewrite (proj2 (Nat.eqb_neq L1 L2) Hne). simpl.
      now rewrite Nat.eqb_refl. }
    rewrite E. eexists. split.
    + apply update_quiet; [|simpl; lia].
      simpl. intros l [<-|[]]. exact Hq.
    + simpl. split; [reflexivity|].
      unfold times. simpl.
      destruct (Nat.eq_dec L2 L2); [|congruence].
      destruct (Nat.eq_dec L2 L1); [congruence|]. split; reflexivity.
Qed.

Lemma unsubscribed_listener_is_not_invoked_witness :
  exists s',
    update readers Increment 3
           (snd (unsubscribe 1 (subscribe 2 (subscribe 1 createCounterStore))))
    = Returned s' /\
    calls s' = [2] /\ times 2 s' = 1 /\ times 1 s' = 0.
Proof.
  apply (proj2 (unsubscribed_listener_is_not_invoked readers) 1 2 Increment 3).
  - discriminate.
  - reflexivity.
  - lia.
Defined.

(** Claim C8.  An update that leaves the value as it was still invokes
    every registered (quiet) callback once more, and [getSnapshot] still
    returns that value; so does [reset] on a counter that is 0, twice in a
    row, with one callback registered. *)
Theorem equal_value_update_still_notifies (body : listener -> list action) :
  (forall (s : store) (l : listener) (op : update_op) (fuel : nat),
      wf s ->
      (forall x, In x (values (listeners s)) -> quiet body x) ->
      In l (values (listeners s)) ->
      length (listeners s) < fuel ->
      mutator op (count s) = count s ->
      exists s',
        update body op fuel s = Returned s' /\
        getSnapshot s' = getSnapshot s /\
        times l s' = times l s + 1) /\
  (forall (l : listener) (fuel : nat),
      quiet body l ->
      1 < fuel ->
      exists s1 s2,
        reset body fuel (subscribe l createCounterStore) = Returned s1 /\
        getSnapshot s1 = 0%Z /\ times l s1 = 1 /\
        reset body fuel s1 = Returned s2 /\
        getSnapshot s2 = 0%Z /\ times l s2 = 2).
Proof.
  split.
  - intros s l op fuel Hwf Hq Hl Hfuel Hsame.
    destruct (@update_invokes_each_once body op fuel s Hwf Hq Hfuel)
      as (s' & E & C & _ & T & _).
    exists s'. split; [exact E|]. split; [|now apply T].
    unfold getSnapshot. congruence.
  - intros l fuel Hq Hfuel.
    assert (Hall : forall x, In x [l] -> quiet body x)
      by (intros x [<-|[]]; exact Hq).
    exists (Store 0 [Some l] [l]), (Store 0 [Some l] [l; l]).
    assert (R : forall cs, reset body fuel (Store 0 [Some l] cs) =
                           Returned (Store 0 [Some l] (cs ++ [l]))).
    { intros cs. apply (@update_quiet body Reset fuel (Store 0 [Some l] cs));
        [exact Hall|simpl; lia]. }
    unfold times. simpl. destruct (Nat.eq_dec l l); [|congruence].
    repeat split; apply R.
Qed.

Lemma equal_value_update_still_notifies_witness :
  exists s',
    update readers Reset 2 (subscribe 4 createCounterStore) = Returned s' /\
    getSnapshot s' = getSnapshot (subscribe 4 createCounterStore) /\
    times 4 s' = times 4 (subscribe 4 createCounterStore) + 1.
Proof.
  apply (proj1 (equal_value_update_still_notifies readers)
               (subscribe 4 createCounterStore) 4 Reset 2).
  - unfold wf. simpl. repeat constructor. simpl. tauto.
  - intros x _. reflexivity.
  - simpl. tauto.
  - simpl. lia.
  - reflexivity.
Defined.

(** Claim C5, as amended.  The listeners are a [Set]: subscribing the same
    callback a second time changes nothing, one update then invokes it
    once, and a call of either handle removes the one registration, after
    which an update does not invoke it. *)
Theorem same_callback_twice_registers_once
        (body : listener -> list action) (s : store) (l : listener)
        (op : update_op) (fuel : nat) :
  wf s ->
  (forall x, In x (values (listeners s)) -> quiet body x) ->
  quiet body l ->
  S (length (listeners s)) < fuel ->
  subscribe l (subscribe l s) = subscribe l s /\
  (exists s',
      update body op fuel (subscribe l (subscribe l s)) = Returned s' /\
      times l s' = times l s + 1) /\
  has l (listeners (snd (unsubscribe l (subscribe l (subscribe l s))))) = false /\
  (exists s',
      update body op fuel (snd (unsubscribe l (subscribe l (subscribe l s))))
      = Returned s' /\
      times l s' = times l s).
Proof.
  intros Hwf Hq Hl Hfuel.
  assert (E : subscribe l (subscribe l s) = subscribe l s).
  { unfold subscribe, with_listeners. simpl. now rewrite add_add. }
  assert (Hwf1 : wf (subscribe l s)) by now apply wf_subscribe.
  assert (Hq1 : forall x, In x (values (listeners (subscribe l s))) -> quiet body x).
  { intros x Hx. simpl in Hx. apply In_values_add in Hx as [->|Hx]; auto. }
  assert (Hlen : length (listeners (subscribe l s)) < fuel).
  { simpl. pose proof (length_add l (listeners s)). lia. }
  rewrite E. split; [reflexivity|]. split; [|split].
  - destruct (@update_invokes_each_once body op fuel (subscribe l s) Hwf1 Hq1 Hlen)
      as (s' & U & _ & _ & T & _).
    exists s'. split; [exact U|].
    rewrite T; [reflexivity|]. simpl. apply In_values_add. now left.
  - simpl. now apply has_delete.
  - destruct (@update_invokes_each_once body op fuel (snd (unsubscribe l (subscribe l s))))
      as (s' & U & _ & _ & _ & T).
    + now apply wf_unsubscribe.
    + intros x Hx. simpl in Hx. apply In_values_delete in Hx as [_ Hx]; auto.
    + simpl. now rewrite length_delete.
    + exists s'. split; [exact U|]. rewrite T; [reflexivity|].
      simpl. apply has_false. now apply has_delete.
Qed.

Lemma same_callback_twice_registers_once_witness :
  subscribe 1 (subscribe 1 createCounterStore) = subscribe 1 createCounterStore /\
  (exists s',
      update readers Increment 2 (subscribe 1 (subscribe 1 createCounterStore))
      = Returned s' /\
      times 1 s' = times 1 createCounterStore + 1) /\
  has 1 (listeners (snd (unsubscribe 1 (subscribe 1 (subscribe 1 createCounterStore)))))
  = false /\
  (exists s',
      update readers Increment 2
             (snd (unsubscribe 1 (subscribe 1 (subscribe 1 createCounterStore))))
      = Returned s' /\
      times 1 s' = times 1 createCounterStore).
Proof.
  apply (@same_callback_twice_registers_once readers createCounterStore 1 Increment 2).
  - unfold wf. simpl. constructor.
  - intros x _. reflexivity.
  - reflexivity.
  - simpl. lia.
Defined.

(** Claim C5 as it was stated fails: after two [subscribe] calls with the
    same callback one update invokes it once, not twice, and after a call
    of one of the two handles the next update does not invoke it at all. *)
Lemma same_callback_twice_counterexample :
  let s := subscribe 1 (subscribe 1 createCounterStore) in
  increment readers 3 s = Returned (Store 1 [Some 1] [1]) /\
  times 1 (Store 1 [Some 1] [1]) <> 2 /\
  increment readers 3 (snd (unsubscribe 1 s)) = Returned (Store 1 [None] []) /\
  times 1 (Store 1 [None] []) <> times 1 (snd (unsubscribe 1 s)) + 1.
Proof.
  repeat split; try reflexivity; vm_compute; discriminate.
Qed.

Lemma NoDup_app_disjoint (A : Type) (l l' : list A) :
  NoDup (l ++ l') -> forall x, In x l -> In x l' -> False.
Proof.
  induction l as [|y l IH]; simpl; intros Hnd x Hx Hx'; [contradiction|].
  inversion Hnd as [|? ? Hy Hnd']; subst. destruct Hx as [->|Hx].
  - apply Hy. apply in_or_app. now right.
  - now apply (IH Hnd' x).
Qed.

Lemma values_around (pre : JSSet.t) (t : listener) (post : JSSet.t) :
  values (pre ++ Some t :: post) = (values pre ++ [t]) ++ values post.
Proof. rewrite values_app. simpl. now rewrite <- app_assoc. Qed.

Lemma times_with_count (x : listener) (c : Z) (s : store) :
  times x (with_count c s) = times x s.
Proof. reflexivity. Qed.

Lemma times_after (x : listener) (ls : list listener) (s s' : store) :
  calls s' = calls s ++ ls ->
  times x s' = times x s + count_occ Nat.eq_dec ls x.
Proof. intros E. unfold times. rewrite E. apply count_occ_app. Qed.

(** Claim C4, as amended.  The pass has no handler for exceptions: when a
    registered callback throws, the callbacks registered before it have
    been invoked, those registered after it are not invoked in that pass,
    the value is the newly updated one, and the update itself throws. *)
Theorem throwing_listener_ends_the_pass
        (body : listener -> list action) (s : store) (pre : JSSet.t)
        (t : listener) (post : JSSet.t) (op : update_op) (fuel : nat) :
  wf s ->
  listeners s = pre ++ Some t :: post ->
  (forall x, In x (values pre) -> quiet body x) ->
  throws_first (body t) = true ->
  length pre < fuel ->
  exists s',
    update body op fuel s = Thrown s' /\
    getSnapshot s' = mutator op (count s) /\
    listeners s' = listeners s /\
    calls s' = calls s ++ values pre ++ [t] /\
    (forall x, In x (values pre) -> times x s' = times x s + 1) /\
    times t s' = times t s + 1 /\
    (forall x, In x (values post) -> times x s' = times x s).
Proof.
  intros Hwf Hs Hpre Ht Hfuel.
  exists (visits (values pre ++ [t]) (with_count (mutator op (count s)) s)).
  split.
  { destruct op; unfold update, increment, decrement, reset;
      now apply pass_until_throw with (post := post). }
  split; [reflexivity|]. split; [reflexivity|]. split; [reflexivity|].
  unfold wf in Hwf. rewrite Hs, values_around in Hwf.
  assert (Hnd : NoDup (values pre ++ [t])) by now apply NoDup_app_remove_r in Hwf.
  split; [|split].
  - intros x Hx. rewrite times_visits, times_with_count.
    rewrite count_occ_NoDup_In; auto. apply in_or_app. now left.
  - rewrite times_visits, times_with_count.
    rewrite count_occ_NoDup_In; auto. apply in_or_app. right. now left.
  - intros x Hx. rewrite times_visits, times_with_count.
    rewrite (proj1 (count_occ_not_In Nat.eq_dec (values pre ++ [t]) x)); [lia|].
    intros Hin. exact (NoDup_app_disjoint _ _ Hwf x Hin Hx).
Qed.

Lemma throwing_listener_ends_the_pass_witness :
  exists s',
    update thrower Increment 2
           (subscribe 3 (subscribe 2 (subscribe 1 createCounterStore))) = Thrown s' /\
    getSnapshot s' = 1%Z /\
    listeners s' = [Some 1; Some 2; Some 3] /\
    calls s' = [1; 2] /\
    (forall x, In x [1] -> times x s' = 1) /\
    times 2 s' = 1 /\
    (forall x, In x [3] -> times x s' = 0).
Proof.
  apply (@throwing_listener_ends_the_pass thrower
           (subscribe 3 (subscribe 2 (subscribe 1 createCounterStore)))
           [Some 1] 2 [Some 3] Increment 2).
  - unfold wf. simpl. repeat constructor; simpl; intuition discriminate.
  - reflexivity.
  - intros x [<-|[]]. reflexivity.
  - reflexivity.
  - simpl. lia.
Defined.

(** Claim C4 as it was stated fails: with callbacks 1, 2 and 3 registered
    in this order and 2 throwing, [increment] throws and 3 is not invoked. *)
Lemma throwing_listener_counterexample :
  let s := subscribe 3 (subscribe 2 (subscribe 1 createCounterStore)) in
  increment thrower 4 s = Thrown (Store 1 [Some 1; Some 2; Some 3] [1; 2]) /\
  (forall s', increment thrower 4 s <> Returned s') /\
  times 3 (Store 1 [Some 1; Some 2; Some 3] [1; 2]) = times 3 s.
Proof.
  split; [reflexivity|]. split; [|reflexivity].
  intros s'. vm_compute. discriminate.
Qed.

Lemma delete_at (b : listener) (front post : JSSet.t) :
  ~ In b (values front) ->
  delete b (front ++ Some b :: post) = front ++ None :: post.
Proof.
  induction front as [|[x|] front IH]; simpl; intros Hb.
  - now rewrite Nat.eqb_refl.
  - destruct (Nat.eqb_spec x b) as [->|_]; [tauto|]. rewrite IH; tauto.
  - now rewrite IH.
Qed.

Lemma subscribe_registered (b : listener) (w : store) :
  has b (listeners w) = true -> subscribe b w = w.
Proof.
  intros H. unfold subscribe, with_listeners, add. rewrite H. now destruct w.
Qed.

Lemma unsubscribe_unregistered (b : listener) (w : store) :
  has b (listeners w) = false -> snd (unsubscribe b w) = w.
Proof.
  intros H. unfold unsubscribe, with_listeners. simpl.
  rewrite delete_absent by assumption. now destruct w.
Qed.

Section Live.
Variable body : listener -> list action.

(** A callback subscribed during a pass is invoked in that pass and in the
    next one. *)
Lemma subscribed_during_pass (s : store) (pre : JSSet.t) (a : listener)
      (post : JSSet.t) (b : listener) (op op' : update_op) (fuel : nat) :
  listeners s = pre ++ Some a :: post ->
  body a = [Subscribe b] ->
  has b (listeners s) = false ->
  (forall x, In x (values pre) \/ In x (values post) \/ x = b -> quiet body x) ->
  S (length (listeners s)) < fuel ->
  exists s' s'',
    update body op fuel s = Returned s' /\
    listeners s' = listeners s ++ [Some b] /\
    calls s' = calls s ++ values pre ++ [a] ++ values post ++ [b] /\
    update body op' fuel s' = Returned s'' /\
    calls s'' = calls s' ++ values pre ++ [a] ++ values post ++ [b].
Proof.
  intros Hs Ha Hb Hq Hfuel.
  set (s0 := with_count (mutator op (count s)) s).
  assert (Hadd : add b (listeners s) = listeners s ++ [Some b])
    by (unfold add; now rewrite Hb).
  assert (Hlen : length (listeners s) = length pre + S (length post))
    by (rewrite Hs, length_app; reflexivity).
  set (s' := visits (values (post ++ [Some b]))
                    (subscribe b (visits (values pre ++ [a]) s0))).
  assert (E1 : notifyListeners body fuel s0 = Returned s').
  { apply pass_with_one_actor
      with (post := post) (front := pre ++ [Some a]) (g := subscribe b).
    - exact Hs.
    - intros x Hx. apply Hq. now left.
    - intros notify w. rewrite Ha. reflexivity.
    - simpl. rewrite Hadd, Hs, <- !app_assoc. reflexivity.
    - rewrite length_app. simpl. lia.
    - intros x Hx. rewrite values_app in Hx. apply in_app_or in Hx.
      apply Hq. destruct Hx as [Hx|[<-|[]]]; auto.
    - rewrite length_app. simpl. lia. }
  assert (L1 : listeners s' = listeners s ++ [Some b]) by exact Hadd.
  set (s1 := with_count (mutator op' (count s')) s').
  assert (E2 : notifyListeners body fuel s1 =
               Returned (visits (values (listeners s1)) s1)).
  { apply notify_idle with (P := fun w => has b (listeners w) = true).
    - intros l w Hw. exact Hw.
    - change (has b (listeners s') = true). rewrite L1, has_app. simpl.
      rewrite Nat.eqb_refl. now rewrite orb_true_r.
    - intros x Hx. change (In x (values (listeners s'))) in Hx.
      rewrite L1, Hs, values_app, values_around in Hx. simpl in Hx.
      rewrite !in_app_iff in Hx. simpl in Hx.
      destruct Hx as [[[Hx|[<-|[]]]|Hx]|[<-|[]]];
        try (apply quiet_idle; apply Hq; tauto).
      intros notify w Hw. rewrite Ha. simpl. now rewrite subscribe_registered.
    - change (length (listeners s') < fuel). rewrite L1, length_app. simpl. lia. }
  exists s', (visits (values (listeners s1)) s1).
  split; [destruct op; exact E1|]. split; [exact L1|]. split.
  - simpl. rewrite values_app, <- !app_assoc. reflexivity.
  - split; [destruct op'; exact E2|].
    assert (V : values (listeners s') = values pre ++ [a] ++ values post ++ [b]).
    { rewrite L1, Hs, values_app, values_around. simpl.
      now rewrite <- !app_assoc. }
    change (calls s' ++ values (listeners s') =
            calls s' ++ values pre ++ [a] ++ values post ++ [b]).
    now rewrite V.
Qed.

(** Once [b] is gone, a callback that calls the handle of [b] is idle. *)
Lemma later_passes_skip (s : store) (a b : listener) (ops : list update_op)
      (fuel : nat) :
  body a = [Unsubscribe b] ->
  has b (listeners s) = false ->
  (forall x, In x (values (listeners s)) -> x = a \/ quiet body x) ->
  length (listeners s) < fuel ->
  exists s',
    do_calls body fuel (map CUpdate ops) s = Returned s' /\
    times b s' = times b s.
Proof.
  intros Ha Hb Hq Hfuel.
  destruct (@updates_idle body (fun w => has b (listeners w) = false) b ops)
    with (fuel := fuel) (s := s) as (s' & E & _ & T); auto.
  - intros x Hx. destruct (Hq x Hx) as [->|Hx']; [|now apply quiet_idle].
    intros notify w Hw. rewrite Ha. cbn [run].
    now rewrite unsubscribe_unregistered.
  - now apply has_false.
  - exists s'. now split.
Qed.

(** A callback unsubscribed during a pass before the pass has reached it is
    not invoked in that pass, nor in any later one. *)
Lemma unsubscribed_before_visit (s : store) (pre : JSSet.t) (a : listener)
      (mid : JSSet.t) (b : listener) (post : JSSet.t) (op : update_op)
      (ops : list update_op) (fuel : nat) :
  wf s ->
  listeners s = pre ++ Some a :: mid ++ Some b :: post ->
  body a = [Unsubscribe b] ->
  (forall x, In x (values pre) \/ In x (values mid) \/ In x (values post) ->
             quiet body x) ->
  S (length (listeners s)) < fuel ->
  exists s' s'',
    update body op fuel s = Returned s' /\
    listeners s' = pre ++ Some a :: mid ++ None :: post /\
    calls s' = calls s ++ values pre ++ [a] ++ values mid ++ values post /\
    times b s' = times b s /\
    do_calls body fuel (map CUpdate ops) s' = Returned s'' /\
    times b s'' = times b s.
Proof.
  intros Hwf Hs Ha Hq Hfuel.
  set (s0 := with_count (mutator op (count s)) s).
  assert (Hs2 : listeners s = (pre ++ Some a :: mid) ++ Some b :: post)
    by (rewrite Hs, <- app_assoc; reflexivity).
  assert (Hnb : ~ In b (values (pre ++ Some a :: mid) ++ values post)).
  { unfold wf in Hwf. rewrite Hs2, values_app in Hwf. simpl in Hwf.
    now apply NoDup_remove_2 in Hwf. }
  assert (Hdel : delete b (listeners s) = pre ++ Some a :: mid ++ None :: post).
  { rewrite Hs2, delete_at, <- app_assoc; [reflexivity|].
    intros Hin. apply Hnb. apply in_or_app. now left. }
  assert (Hlen : length (listeners s) = length pre + S (length mid + S (length post))).
  { rewrite Hs, length_app. simpl. rewrite length_app. reflexivity. }
  set (s' := visits (values (mid ++ None :: post))
                    (snd (unsubscribe b (visits (values pre ++ [a]) s0)))).
  assert (E1 : notifyListeners body fuel s0 = Returned s').
  { apply pass_with_one_actor
      with (post := mid ++ Some b :: post) (front := pre ++ [Some a])
           (g := fun w => snd (unsubscribe b w)).
    - exact Hs.
    - intros x Hx. apply Hq. now left.
    - intros notify w. rewrite Ha. reflexivity.
    - simpl. rewrite Hdel, <- app_assoc. reflexivity.
    - rewrite length_app. simpl. lia.
    - intros x Hx. rewrite values_app in Hx. simpl in Hx. apply in_app_or in Hx.
      apply Hq. tauto.
    - rewrite length_app. simpl. lia. }
  assert (L1 : listeners s' = pre ++ Some a :: mid ++ None :: post) by exact Hdel.
  assert (V : values (listeners s') = values pre ++ [a] ++ values mid ++ values post).
  { rewrite L1, values_app. simpl. now rewrite values_app. }
  assert (C1 : calls s' = calls s ++ values pre ++ [a] ++ values mid ++ values post).
  { simpl. rewrite values_app, <- !app_assoc. reflexivity. }
  assert (Hnb' : ~ In b (values pre ++ [a] ++ values mid ++ values post)).
  { intros Hin. apply Hnb. rewrite values_app. simpl.
    rewrite ?in_app_iff in *. simpl in *. rewrite ?in_app_iff in *. tauto. }
  assert (T1 : times b s' = times b s).
  { rewrite (@times_after b _ _ _ C1).
    rewrite (proj1 (count_occ_not_In Nat.eq_dec _ b) Hnb'). lia. }
  destruct (@later_passes_skip s' a b ops fuel) as (s'' & E2 & T2); auto.
  - apply has_false. now rewrite V.
  - intros x Hx. rewrite V in Hx. rewrite !in_app_iff in Hx. simpl in Hx.
    destruct Hx as [Hx|[[<-|[]]|[Hx|Hx]]]; auto.
  - rewrite L1, length_app. simpl. rewrite length_app. simpl. lia.
  - exists s', s''. repeat split; auto.
    + destruct op; exact E1.
    + now rewrite T2.
Qed.

(** A callback unsubscribed during a pass after the pass has visited it has
    been invoked in that pass, and is not invoked in any later one. *)
Lemma unsubscribed_after_visit (s : store) (pre : JSSet.t) (b : listener)
      (mid : JSSet.t) (a : listener) (post : JSSet.t) (op : update_op)
      (ops : list update_op) (fuel : nat) :
  wf s ->
  listeners s = pre ++ Some b :: mid ++ Some a :: post ->
  body a = [Unsubscribe b] ->
  (forall x, In x (values pre) \/ x = b \/ In x (values mid) \/ In x (values post) ->
             quiet body x) ->
  S (length (listeners s)) < fuel ->
  exists s' s'',
    update body op fuel s = Returned s' /\
    listeners s' = pre ++ None :: mid ++ Some a :: post /\
    calls s' = calls s ++ values pre ++ [b] ++ values mid ++ [a] ++ values post /\
    times b s' = times b s + 1 /\
    do_calls body fuel (map CUpdate ops) s' = Returned s'' /\
    times b s'' = times b s + 1.
Proof.
  intros Hwf Hs Ha Hq Hfuel.
  set (s0 := with_count (mutator op (count s)) s).
  assert (Hs2 : listeners s = (pre ++ Some b :: mid) ++ Some a :: post)
    by (rewrite Hs, <- app_assoc; reflexivity).
  assert (Hv : values (listeners s) =
               values pre ++ [b] ++ values mid ++ [a] ++ values post).
  { rewrite Hs, values_app. simpl. now rewrite values_app. }
  assert (Hnb : ~ In b (values pre ++ values (mid ++ Some a :: post))).
  { unfold wf in Hwf. rewrite Hs, values_app in Hwf. simpl in Hwf.
    now apply NoDup_remove_2 in Hwf. }
  assert (Hdel : delete b (listeners s) = pre ++ None :: mid ++ Some a :: post).
  { rewrite Hs, delete_at; [reflexivity|].
    intros Hin. apply Hnb. apply in_or_app. now left. }
  assert (Hlen : length (listeners s) = length pre + S (length mid + S (length post))).
  { rewrite Hs, length_app. simpl. rewrite length_app. reflexivity. }
  set (s' := visits (values post)
                    (snd (unsubscribe b
                            (visits (values (pre ++ Some b :: mid) ++ [a]) s0)))).
  assert (E1 : notifyListeners body fuel s0 = Returned s').
  { apply pass_with_one_actor
      with (post := post) (front := pre ++ None :: mid ++ [Some a])
           (g := fun w => snd (unsubscribe b w)).
    - exact Hs2.
    - intros x Hx. rewrite values_app in Hx. simpl in Hx. apply in_app_or in Hx.
      apply Hq. simpl in Hx. intuition.
    - intros notify w. rewrite Ha. reflexivity.
    - simpl. rewrite Hdel, <- !app_assoc. simpl. rewrite <- app_assoc. reflexivity.
    - rewrite !length_app. simpl. rewrite !length_app. simpl. lia.
    - intros x Hx. apply Hq. tauto.
    - rewrite length_app. simpl. lia. }
  assert (L1 : listeners s' = pre ++ None :: mid ++ Some a :: post) by exact Hdel.
  assert (V : values (listeners s') = values pre ++ values mid ++ [a] ++ values post).
  { rewrite L1, values_app. simpl. now rewrite values_app. }
  assert (C1 : calls s' =
               calls s ++ values pre ++ [b] ++ values mid ++ [a] ++ values post).
  { simpl. rewrite values_app. simpl. rewrite <- !app_assoc. reflexivity. }
  assert (T1 : times b s' = times b s + 1).
  { rewrite (@times_after b _ _ _ C1). rewrite <- Hv.
    rewrite count_occ_NoDup_In; auto.
    rewrite Hv, !in_app_iff. simpl. tauto. }
  destruct (@later_passes_skip s' a b ops fuel) as (s'' & E2 & T2); auto.
  - apply has_false. rewrite V. intros Hin. apply Hnb.
    rewrite values_app. simpl. rewrite ?in_app_iff in *. simpl in *. tauto.
  - intros x Hx. rewrite V in Hx. rewrite !in_app_iff in Hx. simpl in Hx.
    destruct Hx as [Hx|[Hx|[[<-|[]]|Hx]]]; auto 6.
  - rewrite L1, length_app. simpl. rewrite length_app. simpl. lia.
  - exists s', s''. repeat split; auto.
    + destruct op; exact E1.
    + now rewrite T2.
Qed.

End Live.

Lemma values_repeat_None (n : nat) : values (repeat None n) = [].
Proof. induction n as [|n IH]; simpl; auto. Qed.

(** A pass need not end: a callback that removes itself and subscribes
    itself again is appended behind the position of the pass every time it
    is invoked, so the pass never reaches the end of the entries. *)

Lemma restless_pass_goes_on (notify : store -> outcome store) (l : listener)
      (fuel : nat) :
  forall (n : nat) (s : store),
    listeners s = repeat None n ++ [Some l] ->
    forEach listeners (fun x s' => run notify (restless x) (record x s')) fuel n s
    = OutOfFuel.
Proof.
  induction fuel as [|fuel IH]; intros n s Hs; [reflexivity|].
  assert (Hn : n = length (repeat (@None listener) n)) by now rewrite repeat_length.
  rewrite (@forEach_at_index store listeners _ (repeat None n) l []);
    [|exact Hn|exact Hs|lia].
  cbn [restless run]. rewrite Nat.sub_succ, Nat.sub_0_r. apply IH.
  simpl. rewrite Hs, delete_at by (rewrite values_repeat_None; tauto).
  assert (E : repeat None n ++ [None] = repeat (@None listener) (S n)).
  { simpl. symmetry. apply repeat_cons. }
  rewrite E. unfold add.
  assert (H : has l (repeat None (S n)) = false).
  { apply has_false. rewrite values_repeat_None. tauto. }
  now rewrite H.
Qed.

Lemma restless_update_never_ends (op : update_op) (l : listener) (fuel : nat) :
  update restless op fuel (subscribe l createCounterStore) = OutOfFuel.
Proof.
  assert (H : forall s, listeners s = [Some l] ->
                        notifyListeners restless fuel s = OutOfFuel).
  { intros s Hs. destruct fuel as [|fuel]; [reflexivity|].
    cbn [notifyListeners]. now apply restless_pass_goes_on with (l := l). }
  destruct op; apply H; reflexivity.
Qed.

(** Claim C3, as amended.  The pass iterates over the set itself, not over
    a copy of it.  A callback that a callback subscribes during a pass
    (and that was not registered) is invoked later in that same pass and
    again in the next one.  A callback that a callback unsubscribes during
    a pass is invoked in that pass only if the pass had visited it before,
    and in either case in no later pass. *)
Theorem listeners_are_iterated_live (body : listener -> list action) :
  (forall (s : store) (pre : JSSet.t) (a : listener) (post : JSSet.t)
          (b : listener) (op op' : update_op) (fuel : nat),
      listeners s = pre ++ Some a :: post ->
      body a = [Subscribe b] ->
      has b (listeners s) = false ->
      (forall x, In x (values pre) \/ In x (values post) \/ x = b -> quiet body x) ->
      S (length (listeners s)) < fuel ->
      exists s' s'',
        update body op fuel s = Returned s' /\
        listeners s' = listeners s ++ [Some b] /\
        calls s' = calls s ++ values pre ++ [a] ++ values post ++ [b] /\
        update body op' fuel s' = Returned s'' /\
        calls s'' = calls s' ++ values pre ++ [a] ++ values post ++ [b]) /\
  (forall (s : store) (pre : JSSet.t) (a : listener) (mid : JSSet.t)
          (b : listener) (post : JSSet.t) (op : update_op)
          (ops : list update_op) (fuel : nat),
      wf s ->
      listeners s = pre ++ Some a :: mid ++ Some b :: post ->
      body a = [Unsubscribe b] ->
      (forall x, In x (values pre) \/ In x (values mid) \/ In x (values post) ->
                 quiet body x) ->
      S (length (listeners s)) < fuel ->
      exists s' s'',
        update body op fuel s = Returned s' /\
        listeners s' = pre ++ Some a :: mid ++ None :: post /\
        calls s' = calls s ++ values pre ++ [a] ++ values mid ++ values post /\
        times b s' = times b s /\
        do_calls body fuel (map CUpdate ops) s' = Returned s'' /\
        times b s'' = times b s) /\
  (forall (s : store) (pre : JSSet.t) (b : listener) (mid : JSSet.t)
          (a : listener) (post : JSSet.t) (op : update_op)
          (ops : list update_op) (fuel : nat),
      wf s ->
      listeners s = pre ++ Some b :: mid ++ Some a :: post ->
      body a = [Unsubscribe b] ->
      (forall x, In x (values pre) \/ x = b \/ In x (values mid) \/ In x (values post) ->
                 quiet body x) ->
      S (length (listeners s)) < fuel ->
      exists s' s'',
        update body op fuel s = Returned s' /\
        listeners s' = pre ++ None :: mid ++ Some a :: post /\
        calls s' = calls s ++ values pre ++ [b] ++ values mid ++ [a] ++ values post /\
        times b s' = times b s + 1 /\
        do_calls body fuel (map CUpdate ops) s' = Returned s'' /\
        times b s'' = times b s + 1).
Proof.
  split; [|split]; intros.
  - now apply subscribed_during_pass.
  - now apply unsubscribed_before_visit.
  - now apply unsubscribed_after_visit.
Qed.

Lemma listeners_are_iterated_live_witness :
  (exists s' s'',
      update live_demo Increment 3 (subscribe 1 createCounterStore) = Returned s' /\
      listeners s' = [Some 1; Some 2] /\
      calls s' = [1; 2] /\
      update live_demo Increment 3 s' = Returned s'' /\
      calls s'' = calls s' ++ [1; 2]) /\
  (exists s' s'',
      update live_demo Reset 4 (subscribe 4 (subscribe 3 createCounterStore))
      = Returned s' /\
      listeners s' = [Some 3; None] /\
      calls s' = [3] /\
      times 4 s' = 0 /\
      do_calls live_demo 4 (map CUpdate [Increment; Increment]) s' = Returned s'' /\
      times 4 s'' = 0) /\
  (exists s' s'',
      update live_demo Reset 4 (subscribe 3 (subscribe 4 createCounterStore))
      = Returned s' /\
      listeners s' = [None; Some 3] /\
      calls s' = [4; 3] /\
      times 4 s' = 1 /\
      do_calls live_demo 4 (map CUpdate [Increment; Increment]) s' = Returned s'' /\
      times 4 s'' = 1).
Proof.
  pose proof (listeners_are_iterated_live live_demo) as (Ha & Hb & Hc).
  split; [|split].
  - refine (Ha (subscribe 1 createCounterStore) [] 1 [] 2 Increment Increment 3
              _ _ _ _ _).
    + reflexivity.
    + reflexivity.
    + reflexivity.
    + intros x [[]|[[]| ->]]. reflexivity.
    + simpl. lia.
  - refine (Hb (subscribe 4 (subscribe 3 createCounterStore))
               [] 3 [] 4 [] Reset [Increment; Increment] 4 _ _ _ _ _).
    + unfold wf. simpl. repeat constructor; simpl; intuition discriminate.
    + reflexivity.
    + reflexivity.
    + intros x [[]|[[]|[]]].
    + simpl. lia.
  - refine (Hc (subscribe 3 (subscribe 4 createCounterStore))
               [] 4 [] 3 [] Reset [Increment; Increment] 4 _ _ _ _ _).
    + unfold wf. simpl. repeat constructor; simpl; intuition discriminate.
    + reflexivity.
    + reflexivity.
    + intros x [[]|[ ->|[[]|[]]]]. reflexivity.
    + simpl. lia.
Defined.

(** Claim C3 as it was stated fails.  Callback 2, subscribed by callback 1
    during the pass of an [increment], is invoked in that very pass; and
    callback 4, registered before the update and unsubscribed by callback 3
    before the pass reaches it, is not invoked in that pass. *)
Lemma snapshot_of_listeners_counterexample :
  let s := subscribe 1 createCounterStore in
  let s' := Store 1 [Some 1; Some 2] [1; 2] in
  let t := subscribe 4 (subscribe 3 createCounterStore) in
  let t' := Store 1 [Some 3; None] [3] in
  has 2 (listeners s) = false /\
  increment live_demo 4 s = Returned s' /\
  times 2 s' <> times 2 s /\
  has 4 (listeners t) = true /\
  increment live_demo 4 t = Returned t' /\
  times 4 t' <> times 4 t + 1.
Proof.
  repeat split; try reflexivity; vm_compute; discriminate.
Qed.

Lemma subscribe_all_registers (ls : list listener) :
  forall s,
    (forall x, In x (values (listeners (subscribe_all ls s))) <->
               In x ls \/ In x (values (listeners s))) /\
    (wf s -> wf (subscribe_all ls s)) /\
    length (listeners (subscribe_all ls s)) <= length (listeners s) + length ls /\
    calls (subscribe_all ls s) = calls s.
Proof.
  induction ls as [|l ls IH]; intros s.
  - simpl. repeat split; auto; try tauto. lia.
  - destruct (IH (subscribe l s)) as (A & B & C & D).
    change (subscribe_all (l :: ls) s) with (subscribe_all ls (subscribe l s)).
    split; [|split; [|split]].
    + intros x. rewrite A. simpl. rewrite In_values_add. intuition.
    + intros Hwf. apply B. now apply wf_subscribe.
    + simpl in *. pose proof (length_add l (listeners s)). lia.
    + exact D.
Qed.

End CounterSpec.

(** ** What the online store does *)

Module OnlineSpec.
Import JSSet JSSetFacts ForEachFacts Online.

Lemma online_visit_all_record (ls : list listener) (s : store) :
  visit_all record ls s = visits ls s.
Proof.
  unfold visit_all. revert s. induction ls as [|l ls IH]; intros s; simpl.
  - unfold visits. rewrite app_nil_r. now destruct s.
  - rewrite IH. unfold visits, record. simpl. now rewrite <- app_assoc.
Qed.

Lemma online_run_only_reads (acts : list action) (s : store) :
  only_reads acts = true -> run acts s = Returned s.
Proof.
  induction acts as [|a acts IH]; simpl; [reflexivity|].
  destruct a; try discriminate. exact IH.
Qed.

Lemma iter_round_frame (ev : event) (n : nat) (s : store) :
  listeners (Nat.iter n (round ev) s) = listeners s /\
  on_online (Nat.iter n (round ev) s) = on_online s /\
  on_offline (Nat.iter n (round ev) s) = on_offline s /\
  (0 < n -> isOnline (Nat.iter n (round ev) s) = goes_online ev).
Proof.
  induction n as [|n (L & On & Off & _)]; simpl.
  - repeat split. lia.
  - repeat split; assumption.
Qed.

Lemma times_round (ev : event) (l : listener) (s : store) :
  times l (round ev s) = times l s + count_occ Nat.eq_dec (values (listeners s)) l.
Proof. unfold times, round, visits. simpl. apply count_occ_app. Qed.

Lemma times_iter_round (ev : event) (l : listener) (n : nat) (s : store) :
  times l (Nat.iter n (round ev) s) =
  times l s + n * count_occ Nat.eq_dec (values (listeners s)) l.
Proof.
  induction n as [|n IH]; [simpl; lia|].
  destruct (iter_round_frame ev n s) as (L & _).
  rewrite Nat.iter_succ, times_round, L, IH. lia.
Qed.

Lemma not_in_seq (k : nat) : existsb (Nat.eqb k) (seq 0 k) = false.
Proof.
  destruct (existsb (Nat.eqb k) (seq 0 k)) eqn:E; [|reflexivity].
  apply existsb_exists in E as (x & Hx & Ex).
  apply in_seq in Hx. apply Nat.eqb_eq in Ex. lia.
Qed.

Lemma addEventListener_next (k : nat) : addEventListener k (seq 0 k) = seq 0 (S k).
Proof. unfold addEventListener. now rewrite not_in_seq, seq_S. Qed.

(** One [subscribe] call in a browser: a new handler pair is installed. *)
Lemma subscribe_installs (l : listener) (s : store) :
  all_installed s ->
  fst (subscribe l s) = Handle l (Some (closures s)) /\
  all_installed (snd (subscribe l s)) /\
  closures (snd (subscribe l s)) = S (closures s) /\
  listeners (snd (subscribe l s)) = add l (listeners s) /\
  calls (snd (subscribe l s)) = calls s.
Proof.
  intros (Hw & Hon & Hoff). unfold subscribe. rewrite Hw. simpl.
  rewrite Hon, Hoff, addEventListener_next. repeat split. exact Hw.
Qed.

Lemma subscribe_all_cons (l : listener) (ls : list listener) (s : store) :
  subscribe_all (l :: ls) s =
  (fst (subscribe l s) :: fst (subscribe_all ls (snd (subscribe l s))),
   snd (subscribe_all ls (snd (subscribe l s)))).
Proof.
  simpl. destruct (subscribe l s) as [h s1]. simpl.
  now destruct (subscribe_all ls s1).
Qed.

Lemma subscribe_all_installs (ls : list listener) :
  forall s,
    all_installed s ->
    all_installed (snd (subscribe_all ls s)) /\
    closures (snd (subscribe_all ls s)) = closures s + length ls /\
    (forall i l, nth_error ls i = Some l ->
                 nth_error (fst (subscribe_all ls s)) i
                 = Some (Handle l (Some (closures s + i)))) /\
    (forall x, In x (values (listeners (snd (subscribe_all ls s)))) <->
               In x ls \/ In x (values (listeners s))) /\
    (wf s -> wf (snd (subscribe_all ls s))) /\
    length (listeners (snd (subscribe_all ls s))) <= length (listeners s) + length ls /\
    calls (snd (subscribe_all ls s)) = calls s.
Proof.
  induction ls as [|l ls IH]; intros s Hs.
  - simpl. split; [exact Hs|]. split; [lia|]. split.
    { intros [|i] l H; discriminate. }
    split; [tauto|]. split; [tauto|]. split; [lia|reflexivity].
  - rewrite subscribe_all_cons. cbn [fst snd length].
    destruct (subscribe_installs l Hs) as (Hh & Hs1 & Hc & Hl & Hcalls).
    destruct (IH _ Hs1) as (A & B & C & D & E & F & G).
    split; [exact A|]. split; [rewrite B, Hc; lia|]. split; [|split; [|split; [|split]]].
    + intros [|i] x Hx; simpl in *.
      * injection Hx as <-. now rewrite Hh, Nat.add_0_r.
      * rewrite (C i x Hx), Hc. do 3 f_equal. lia.
    + intros x. rewrite D, Hl, In_values_add. simpl. intuition.
    + intros Hwf. apply E. unfold wf. rewrite Hl. now apply NoDup_add.
    + rewrite Hl in F. pose proof (length_add l (listeners s)). lia.
    + now rewrite G.
Qed.

Section Body.
Variable body : listener -> list action.

Lemma online_notify_quiet (fuel : nat) (s : store) :
  (forall l, In l (values (listeners s)) -> quiet body l) ->
  length (listeners s) < fuel ->
  forEach listeners (invoke body) fuel 0 s =
  Returned (visits (values (listeners s)) s).
Proof.
  intros Hq Hfuel. rewrite <- online_visit_all_record.
  apply (@forEach_all_inert store listeners _ record (fun _ => True)); auto.
  intros l Hl w _. apply online_run_only_reads. now apply Hq.
Qed.

Lemma handler_quiet (ev : event) (fuel : nat) (s : store) :
  (forall l, In l (values (listeners s)) -> quiet body l) ->
  length (listeners s) < fuel ->
  handler body ev fuel s = Returned (round ev s).
Proof.
  intros Hq Hfuel.
  destruct ev; unfold handler, handleOnline, handleOffline;
    now rewrite online_notify_quiet.
Qed.

(** With quiet callbacks, every handler of the snapshot that is still
    installed runs one round. *)
Lemma invoke_handlers_quiet (fuel : nat) (ev : event) (ks : list nat) :
  forall s,
    (forall k, In k ks -> In k (installed ev s)) ->
    (forall l, In l (values (listeners s)) -> quiet body l) ->
    length (listeners s) < fuel ->
    invoke_handlers body fuel ev ks s = Returned (Nat.iter (length ks) (round ev) s).
Proof.
  induction ks as [|k ks IH]; intros s Hks Hq Hfuel; [reflexivity|].
  cbn [invoke_handlers].
  assert (Hk : existsb (Nat.eqb k) (installed ev s) = true).
  { apply existsb_exists. exists k. split; [|apply Nat.eqb_refl].
    apply Hks. now left. }
  rewrite Hk, handler_quiet by assumption.
  rewrite IH.
  - cbn [length]. now rewrite Nat.iter_succ_r.
  - intros k' Hk'. assert (Hin : In k' (installed ev s)) by (apply Hks; now right).
    destruct ev; exact Hin.
  - exact Hq.
  - exact Hfuel.
Qed.

Lemma dispatch_quiet (fuel : nat) (ev : event) (s : store) :
  (forall l, In l (values (listeners s)) -> quiet body l) ->
  length (listeners s) < fuel ->
  dispatch body fuel ev s =
  Returned (Nat.iter (length (installed ev s)) (round ev) s).
Proof.
  intros Hq Hfuel. unfold dispatch. now apply invoke_handlers_quiet.
Qed.

End Body.
Lemma length_remove (x : nat) (l : list nat) :
  NoDup l -> In x l -> S (length (remove Nat.eq_dec x l)) = length l.
Proof.
  induction l as [|y l IH]; intros Hnd Hin; [contradiction|].
  inversion Hnd as [|? ? Hy Hnd']; subst. simpl.
  destruct (Nat.eq_dec x y) as [->|Hxy].
  - now rewrite notin_remove.
  - simpl. f_equal. apply IH; [assumption|]. destruct Hin; congruence.
Qed.

Lemma In_removeEventListener (k i : nat) (hs : list nat) :
  In k (removeEventListener i hs) <-> In k hs /\ k <> i.
Proof.
  unfold removeEventListener. split.
  - apply in_remove.
  - intros [H1 H2]. now apply in_in_remove.
Qed.

Lemma times_rounds (ev : event) (x : listener) (n : nat) (s : store) :
  wf s ->
  In x (values (listeners s)) ->
  times x (Nat.iter n (round ev) s) = times x s + n.
Proof.
  intros Hwf Hx. rewrite times_iter_round.
  rewrite (proj1 (NoDup_count_occ' Nat.eq_dec _) Hwf x Hx). lia.
Qed.

(** Claim C10.  In a browser every [subscribe] call on the online store
    installs a handler pair of its own on [window], and each handler
    notifies the whole listener set: with the callbacks [ls] subscribed one
    after the other (all quiet), one [online] or [offline] event invokes
    every registered callback as many times as there were [subscribe]
    calls.  The handle of the i-th call removes the i-th handler pair and
    no other, after which an event invokes every other callback one time
    less. *)
Theorem online_store_notifies_once_per_subscription
        (body : listener -> list action) (ls : list listener)
        (navigator_onLine : bool) (ev : event) (fuel : nat) :
  (forall l, In l ls -> quiet body l) ->
  length ls < fuel ->
  let hs := fst (subscribe_all ls (createOnlineStore true navigator_onLine)) in
  let s := snd (subscribe_all ls (createOnlineStore true navigator_onLine)) in
  on_online s = seq 0 (length ls) /\
  on_offline s = seq 0 (length ls) /\
  (forall l, has l (listeners s) = true <-> In l ls) /\
  (exists s',
      dispatch body fuel ev s = Returned s' /\
      (ls <> [] -> getSnapshot s' = goes_online ev) /\
      (forall l, In l ls -> times l s' = length ls)) /\
  (forall i l,
      nth_error ls i = Some l ->
      nth_error hs i = Some (Handle l (Some i)) /\
      (forall k, In k (on_online (unsubscribe (Handle l (Some i)) s)) <->
                 k < length ls /\ k <> i) /\
      (forall k, In k (on_offline (unsubscribe (Handle l (Some i)) s)) <->
                 k < length ls /\ k <> i) /\
      (exists s',
          dispatch body fuel ev (unsubscribe (Handle l (Some i)) s) = Returned s' /\
          (forall x, In x ls -> x <> l -> times x s' = length ls - 1))).
Proof.
  intros Hq Hfuel hs s.
  assert (H0 : all_installed (createOnlineStore true navigator_onLine))
    by (repeat split).
  destruct (subscribe_all_installs ls H0) as (A & B & C & D & E & F & G).
  fold s in A, B, D, E, F, G. fold hs in C. simpl in B, D, F, G.
  destruct A as (Hw & Hon & Hoff). rewrite B in Hon, Hoff.
  assert (Hwf : wf s) by (apply E; constructor).
  assert (Hin : forall x, In x (values (listeners s)) <-> In x ls)
    by (intros x; rewrite D; tauto).
  assert (Hlen : forall e, length (installed e s) = length ls).
  { intros []; simpl; rewrite ?Hon, ?Hoff; apply length_seq. }
  split; [exact Hon|]. split; [exact Hoff|]. split; [|split].
  - intros l. now rewrite has_In, Hin.
  - eexists. split.
    + apply dispatch_quiet; [|lia]. intros l Hl. apply Hq. now apply Hin.
    + rewrite Hlen. split.
      * intros Hne. apply iter_round_frame. destruct ls; [congruence|simpl; lia].
      * intros l Hl. rewrite times_rounds; [|exact Hwf|now apply Hin].
        unfold times. now rewrite G.
  - intros i l Hi.
    assert (Hlt : i < length ls) by (apply nth_error_Some; congruence).
    set (s2 := unsubscribe (Handle l (Some i)) s).
    assert (On2 : on_online s2 = removeEventListener i (seq 0 (length ls)))
      by (simpl; now rewrite Hon).
    assert (Off2 : on_offline s2 = removeEventListener i (seq 0 (length ls)))
      by (simpl; now rewrite Hoff).
    assert (Hseq : forall k, In k (removeEventListener i (seq 0 (length ls))) <->
                             k < length ls /\ k <> i).
    { intros k. rewrite In_removeEventListener, in_seq. intuition lia. }
    split; [now apply C|]. split; [now rewrite On2|]. split; [now rewrite Off2|].
    assert (Hlen2 : forall e, S (length (installed e s2)) = length ls).
    { intros []; cbn [installed]; rewrite ?On2, ?Off2;
        (rewrite length_remove; [apply length_seq|apply seq_NoDup|apply in_seq; lia]). }
    eexists. split.
    + apply dispatch_quiet.
      * intros x Hx. simpl in Hx. apply values_delete_notin in Hx.
        apply Hq. now apply Hin.
      * simpl. rewrite length_delete. lia.
    + intros x Hx Hne. rewrite times_rounds.
      * specialize (Hlen2 ev). unfold times. simpl. rewrite G. simpl. lia.
      * now apply NoDup_delete.
      * simpl. apply has_In. rewrite has_delete_other by assumption.
        apply has_In. now apply Hin.
Qed.

Lemma online_store_notifies_once_per_subscription_witness :
  let hs := fst (subscribe_all [7; 8; 7] (createOnlineStore true true)) in
  let s := snd (subscribe_all [7; 8; 7] (createOnlineStore true true)) in
  on_online s = [0; 1; 2] /\
  on_offline s = [0; 1; 2] /\
  (forall l, has l (listeners s) = true <-> In l [7; 8; 7]) /\
  (exists s',
      dispatch idlers 4 offline s = Returned s' /\
      ([7; 8; 7] <> [] -> getSnapshot s' = false) /\
      (forall l, In l [7; 8; 7] -> times l s' = 3)) /\
  (forall i l,
      nth_error [7; 8; 7] i = Some l ->
      nth_error hs i = Some (Handle l (Some i)) /\
      (forall k, In k (on_online (unsubscribe (Handle l (Some i)) s)) <->
                 k < 3 /\ k <> i) /\
      (forall k, In k (on_offline (unsubscribe (Handle l (Some i)) s)) <->
                 k < 3 /\ k <> i) /\
      (exists s',
          dispatch idlers 4 offline (unsubscribe (Handle l (Some i)) s) = Returned s' /\
          (forall x, In x [7; 8; 7] -> x <> l -> times x s' = 2))).
Proof.
  apply (@online_store_notifies_once_per_subscription idlers [7; 8; 7] true offline 4).
  - intros l _. reflexivity.
  - simpl. lia.
Defined.

End OnlineSpec.

(** ** Both stores *)

Module Stores.

(** Claim C2.  On the counter store one update invokes each of the
    subscribed (quiet) callbacks exactly once.  On the online store it does
    not: with callbacks 1 and 2 subscribed in a browser, one [offline]
    event invokes each of them twice. *)
Theorem each_listener_once_on_counter_twice_on_online :
  (forall (body : listener -> list Counter.action) (ls : list listener)
          (op : Counter.update_op) (fuel : nat),
      (forall l, In l ls -> Counter.quiet body l) ->
      length ls < fuel ->
      exists s',
        Counter.update body op fuel
                       (Counter.subscribe_all ls Counter.createCounterStore)
        = Returned s' /\
        (forall l, In l ls -> Counter.times l s' = 1)) /\
  (exists s',
      Online.dispatch Online.idlers 3 Online.offline
                      (snd (Online.subscribe_all [1; 2]
                                                 (Online.createOnlineStore true true)))
      = Returned s' /\
      Online.times 1 s' = 2 /\
      Online.times 2 s' = 2).
Proof.
  split.
  - intros body ls op fuel Hq Hfuel.
    destruct (CounterSpec.subscribe_all_registers ls Counter.createCounterStore)
      as (A & B & C & D).
    destruct (@CounterSpec.update_invokes_each_once body op fuel
                (Counter.subscribe_all ls Counter.createCounterStore))
      as (s' & E & _ & _ & T & _).
    + apply B. constructor.
    + intros l Hl. apply Hq. apply A in Hl. simpl in Hl. tauto.
    + simpl in C. lia.
    + exists s'. split; [exact E|]. intros l Hl.
      rewrite T by (apply A; now left). unfold Counter.times. now rewrite D.
  - exists (Online.Store false [Some 1; Some 2] true [0; 1] [0; 1] 2 [1; 2; 1; 2] 0).
    split; [|split]; vm_compute; reflexivity.
Qed.

Lemma each_listener_once_on_counter_twice_on_online_witness :
  exists s',
    Counter.update Counter.readers Counter.Increment 3
                   (Counter.subscribe_all [1; 2] Counter.createCounterStore)
    = Returned s' /\
    (forall l, In l [1; 2] -> Counter.times l s' = 1).
Proof.
  apply (proj1 each_listener_once_on_counter_twice_on_online
               Counter.readers [1; 2] Counter.Increment 3).
  - intros l _. reflexivity.
  - simpl. lia.
Defined.

End Stores.

(** ** More about the counter store *)

Module CounterMore.
Import JSSet JSSetFacts ForEachFacts Counter CounterExtra CounterFacts CounterSpec.

Section Stuck.
Context {W : Type}.
Variable entries : W -> JSSet.t.
Variable callback : listener -> W -> outcome W.
Variable visit : listener -> W -> W.
Variable P : W -> Prop.
Hypothesis visit_entries : forall l w, entries (visit l w) = entries w.
Hypothesis visit_P : forall l w, P w -> P (visit l w).

(** An iteration that cannot end from behind an entry cannot end from that
    entry either, when the callback of the entry returns. *)
Lemma forEach_stuck_at (pre : JSSet.t) (l : listener) (post : JSSet.t) (w w' : W) :
  entries w = pre ++ Some l :: post ->
  callback l w = Returned w' ->
  (forall fuel, forEach entries callback fuel (S (length pre)) w' = OutOfFuel) ->
  forall fuel, forEach entries callback fuel (length pre) w = OutOfFuel.
Proof.
  intros Hw Hcb Hrest [|fuel]; [reflexivity|].
  rewrite (forEach_at entries callback pre l post) by exact Hw.
  rewrite Hcb. apply Hrest.
Qed.

(** Nor from in front of a stretch of inert entries. *)
Lemma forEach_stuck_inert (mid : JSSet.t) :
  forall (pre post : JSSet.t) (w : W),
    entries w = pre ++ mid ++ post ->
    P w ->
    (forall l, In l (values mid) -> inert callback visit P l) ->
    (forall fuel, forEach entries callback fuel (length pre + length mid)
                          (visit_all visit (values mid) w) = OutOfFuel) ->
    forall fuel, forEach entries callback fuel (length pre) w = OutOfFuel.
Proof.
  induction mid as [|e mid IH]; intros pre post w Hw HP Hin Hrest fuel.
  - simpl in Hrest. rewrite Nat.add_0_r in Hrest. apply Hrest.
  - assert (Hlen : forall n, length (pre ++ [e]) + n = length pre + S n)
      by (intros n; rewrite length_app; simpl; lia).
    assert (Hnext : forall w', entries w' = entries w -> P w' ->
                (forall fuel', forEach entries callback fuel'
                                  (length pre + length (e :: mid))
                                  (visit_all visit (values mid) w') = OutOfFuel) ->
                forall fuel', forEach entries callback fuel' (S (length pre)) w'
                              = OutOfFuel).
    { intros w' Hw' HP' Hr fuel'.
      replace (S (length pre)) with (length (pre ++ [e]))
        by (rewrite length_app; simpl; lia).
      apply (IH (pre ++ [e]) post w').
      - rewrite Hw', Hw, <- app_assoc. reflexivity.
      - exact HP'.
      - intros l Hl. apply Hin. destruct e; simpl; auto.
      - intros f. rewrite Hlen. apply Hr. }
    destruct e as [l|].
    + apply forEach_stuck_at with (l := l) (post := mid ++ post) (w' := visit l w).
      * exact Hw.
      * apply Hin; [now left|exact HP].
      * apply Hnext; [apply visit_entries|now apply visit_P|exact Hrest].
    + destruct fuel as [|fuel]; [reflexivity|].
      rewrite (forEach_at_empty entries callback pre (mid ++ post)) by exact Hw.
      apply Hnext; [reflexivity|exact HP|exact Hrest].
Qed.
End Stuck.

Lemma values_map_Some (ls : list listener) : values (map Some ls) = ls.
Proof. induction ls as [|l ls IH]; simpl; congruence. Qed.

Lemma subscribe_all_fresh (ls : list listener) :
  forall (s : store) (done : list listener),
    listeners s = map Some done ->
    NoDup (done ++ ls) ->
    subscribe_all ls s = Store (count s) (map Some (done ++ ls)) (calls s).
Proof.
  induction ls as [|l ls IH]; intros s done Hs Hnd.
  - simpl. rewrite app_nil_r, <- Hs. now destruct s.
  - change (subscribe_all (l :: ls) s) with (subscribe_all ls (subscribe l s)).
    assert (Hl : has l (listeners s) = false).
    { apply has_false. rewrite Hs, values_map_Some.
      apply NoDup_remove_2 in Hnd. intros Hin. apply Hnd.
      apply in_or_app. now left. }
    rewrite (IH (subscribe l s) (done ++ [l])).
    + simpl. now rewrite <- app_assoc.
    + simpl. unfold add. rewrite Hl, Hs, map_app. reflexivity.
    + now rewrite <- app_assoc.
Qed.

(** X1.  Callbacks are notified in the order in which they were subscribed:
    with distinct quiet callbacks [ls] subscribed one after the other to a
    new store, one update returns with exactly the trace [ls]. *)
Theorem listeners_notified_in_subscription_order
        (body : listener -> list action) (ls : list listener)
        (op : update_op) (fuel : nat) :
  NoDup ls ->
  (forall l, In l ls -> quiet body l) ->
  length ls < fuel ->
  update body op fuel (subscribe_all ls createCounterStore)
  = Returned (Store (mutator op 0) (map Some ls) ls).
Proof.
  intros Hnd Hq Hfuel.
  rewrite (@subscribe_all_fresh ls createCounterStore []) by auto.
  rewrite update_quiet; simpl.
  - now rewrite values_map_Some.
  - rewrite values_map_Some. exact Hq.
  - now rewrite length_map.
Qed.

Lemma listeners_notified_in_subscription_order_witness :
  update readers Decrement 4 (subscribe_all [5; 3; 9] createCounterStore)
  = Returned (Store (-1) [Some 5; Some 3; Some 9] [5; 3; 9]).
Proof.
  apply (@listeners_notified_in_subscription_order readers [5; 3; 9] Decrement 4).
  - repeat constructor; simpl; intuition discriminate.
  - intros l _. reflexivity.
  - simpl. lia.
Defined.

(** X2.  A callback that calls its handle and subscribes again moves to the
    end of the notification order: its old entry stays behind as an empty
    slot and the next update invokes it after every other callback. *)
Theorem resubscribing_moves_to_the_end
        (body : listener -> list action) (s : store) (pre : JSSet.t)
        (l : listener) (post : JSSet.t) (op : update_op) (fuel : nat) :
  wf s ->
  listeners s = pre ++ Some l :: post ->
  (forall x, In x (values (listeners s)) -> quiet body x) ->
  S (length (listeners s)) < fuel ->
  listeners (subscribe l (snd (unsubscribe l s))) = pre ++ None :: post ++ [Some l] /\
  exists s',
    update body op fuel (subscribe l (snd (unsubscribe l s))) = Returned s' /\
    calls s' = calls s ++ values pre ++ values post ++ [l].
Proof.
  intros Hwf Hs Hq Hfuel.
  assert (Hnd : ~ In l (values pre ++ values post)).
  { unfold wf in Hwf. rewrite Hs, values_app in Hwf. simpl in Hwf.
    now apply NoDup_remove_2 in Hwf. }
  assert (Hdel : delete l (listeners s) = pre ++ None :: post).
  { rewrite Hs, delete_at; [reflexivity|].
    intros Hin. apply Hnd. apply in_or_app. now left. }
  assert (Hl : listeners (subscribe l (snd (unsubscribe l s)))
               = pre ++ None :: post ++ [Some l]).
  { simpl. rewrite Hdel. unfold add.
    assert (H : has l (pre ++ None :: post) = false).
    { apply has_false. rewrite values_app. exact Hnd. }
    rewrite H, <- app_assoc. reflexivity. }
  split; [exact Hl|]. eexists. split.
  - apply update_quiet.
    + intros x Hx. apply Hq. rewrite Hl in Hx. rewrite Hs.
      rewrite values_app in *. simpl in *. rewrite values_app in Hx. simpl in Hx.
      rewrite !in_app_iff in *. simpl in *. intuition.
    + rewrite Hl, Hs in *. rewrite !length_app in *. simpl in *.
      rewrite length_app. simpl. lia.
  - cbn [calls visits with_count]. rewrite Hl, values_app. simpl.
    rewrite values_app. reflexivity.
Qed.

Lemma resubscribing_moves_to_the_end_witness :
  let s := subscribe_all [1; 2; 3] createCounterStore in
  listeners (subscribe 2 (snd (unsubscribe 2 s))) = [Some 1; None; Some 3; Some 2] /\
  exists s',
    update readers Increment 5 (subscribe 2 (snd (unsubscribe 2 s))) = Returned s' /\
    calls s' = [1; 3; 2].
Proof.
  apply (@resubscribing_moves_to_the_end readers
           (subscribe_all [1; 2; 3] createCounterStore) [Some 1] 2 [Some 3]
           Increment 5).
  - unfold wf. simpl. repeat constructor; simpl; intuition discriminate.
  - reflexivity.
  - intros x _. reflexivity.
  - simpl. lia.
Defined.

Section Restless.
Variable body : listener -> list action.
Variable l : listener.
Hypothesis body_l : body l = [Unsubscribe l; Subscribe l].

(** At the last entry, a callback that removes itself and subscribes again
    is appended behind the position of the pass, which therefore finds it
    again, and so on. *)
Lemma resubscriber_at_the_end (notify : store -> outcome store) (fuel : nat) :
  forall (front : JSSet.t) (s : store),
    listeners s = front ++ [Some l] ->
    ~ In l (values front) ->
    forEach listeners (fun x s' => run notify (body x) (record x s'))
            fuel (length front) s
    = OutOfFuel.
Proof.
  induction fuel as [|fuel IH]; intros front s Hs Hl; [reflexivity|].
  rewrite (forEach_at listeners _ front l []) by exact Hs.
  rewrite body_l. cbn [run].
  replace (S (length front)) with (length (front ++ [None]))
    by (rewrite length_app; simpl; lia).
  apply IH.
  - simpl. rewrite Hs, delete_at by exact Hl. unfold add.
    assert (H : has l (front ++ [None]) = false).
    { apply has_false. rewrite values_app. simpl. now rewrite app_nil_r. }
    now rewrite H.
  - rewrite values_app. simpl. now rewrite app_nil_r.
Qed.

Lemma resubscriber_pass_never_ends (s : store) (pre post : JSSet.t) (fuel : nat) :
  wf s ->
  listeners s = pre ++ Some l :: post ->
  (forall x, In x (values pre) \/ In x (values post) -> quiet body x) ->
  notifyListeners body fuel s = OutOfFuel.
Proof.
  intros Hwf Hs Hq. destruct fuel as [|n]; [reflexivity|].
  cbn [notifyListeners].
  set (cb := fun x s' => run (notifyListeners body n) (body x) (record x s')).
  assert (Hnd : ~ In l (values pre ++ values post)).
  { unfold wf in Hwf. rewrite Hs, values_app in Hwf. simpl in Hwf.
    now apply NoDup_remove_2 in Hwf. }
  assert (Hinert : forall x, quiet body x -> inert cb record (fun _ => True) x).
  { intros x Hx w _. apply run_only_reads. exact Hx. }
  change 0 with (length (@nil (option listener))).
  apply (@forEach_stuck_inert store listeners cb record (fun _ => True)
           (fun _ _ => eq_refl) (fun _ _ _ => I) pre [] (Some l :: post)); auto.
  rewrite visit_all_record. simpl length.
  apply forEach_stuck_at
    with (l := l) (post := post)
         (w' := subscribe l (snd (unsubscribe l (visits (values pre ++ [l]) s)))).
  - exact Hs.
  - unfold cb. now rewrite body_l, record_visits.
  - replace (S (length pre)) with (length (pre ++ [None]))
      by (rewrite length_app; simpl; lia).
    assert (E : listeners (subscribe l (snd (unsubscribe l (visits (values pre ++ [l]) s))))
                = (pre ++ [None]) ++ post ++ [Some l]).
    { simpl. rewrite Hs, delete_at by (intros Hin; apply Hnd, in_or_app; now left).
      unfold add.
      assert (H : has l (pre ++ None :: post) = false).
      { apply has_false. rewrite values_app. exact Hnd. }
      rewrite H, <- !app_assoc. reflexivity. }
    apply (@forEach_stuck_inert store listeners cb record (fun _ => True)
             (fun _ _ => eq_refl) (fun _ _ _ => I) post (pre ++ [None]) [Some l]);
      auto.
    rewrite visit_all_record. intros fuel'.
    replace (length (pre ++ [None]) + length post)
      with (length ((pre ++ [None]) ++ post)) by (rewrite !length_app; reflexivity).
    apply resubscriber_at_the_end.
    + simpl. simpl in E. rewrite E, <- !app_assoc. reflexivity.
    + rewrite !values_app. simpl. rewrite app_nil_r. exact Hnd.
Qed.
End Restless.

(** X3.  The pass iterates over the live set, so it does not end when a
    registered callback calls its own handle and subscribes itself again:
    whatever the fuel, an update of a store that holds such a callback
    among quiet ones is never over. *)
Theorem self_resubscribing_listener_never_ends
        (body : listener -> list action) (s : store) (pre : JSSet.t)
        (l : listener) (post : JSSet.t) (op : update_op) (fuel : nat) :
  wf s ->
  listeners s = pre ++ Some l :: post ->
  body l = [Unsubscribe l; Subscribe l] ->
  (forall x, In x (values pre) \/ In x (values post) -> quiet body x) ->
  update body op fuel s = OutOfFuel.
Proof.
  intros Hwf Hs Hl Hq.
  destruct op; unfold update, increment, decrement, reset;
    now apply resubscriber_pass_never_ends with (l := l) (pre := pre) (post := post).
Qed.

Lemma self_resubscribing_listener_never_ends_witness :
  update one_restless Increment 1000 (subscribe_all [1; 2; 3] createCounterStore)
  = OutOfFuel.
Proof.
  apply (@self_resubscribing_listener_never_ends one_restless
           (subscribe_all [1; 2; 3] createCounterStore) [Some 1] 2 [Some 3]
           Increment 1000).
  - unfold wf. simpl. repeat constructor; simpl; intuition discriminate.
  - reflexivity.
  - reflexivity.
  - intros x [[<-|[]]|[<-|[]]]; reflexivity.
Defined.

(** A property of the store that [subscribe], the handles, the trace and
    every update keep holds after any calls of the owner, whatever the
    callbacks do. *)
Lemma do_calls_invariant (body : listener -> list action) (Q : store -> Prop) :
  (forall l s, Q s -> Q (subscribe l s)) ->
  (forall l s, Q s -> Q (snd (unsubscribe l s))) ->
  (forall l s, Q s -> Q (record l s)) ->
  (forall op s, Q s -> Q (with_count (mutator op (count s)) s)) ->
  forall (cs : list call) (fuel : nat) (s : store),
    Q s -> ends_in Q (do_calls body fuel cs s).
Proof.
  intros Hsub Hunsub Hrec Hupd.
  induction cs as [|c cs IH]; intros fuel s Hs; [exact Hs|].
  cbn [do_calls].
  assert (H : ends_in Q (do_call body fuel c s)).
  { destruct c as [op|l|l|]; cbn [do_call ends_in]; auto.
    assert (Hn : ends_in Q (notifyListeners body fuel
                                            (with_count (mutator op (count s)) s))).
    { apply notify_invariant; auto. }
    destruct op; exact Hn. }
  destruct (do_call body fuel c s); simpl in *; auto.
Qed.

Lemma mutator_in_range (op : update_op) (c : Z) :
  (- max_exact <= c <= max_exact)%Z ->
  (- max_exact <= mutator op c <= max_exact)%Z.
Proof.
  intros H. assert (0 < max_exact)%Z by reflexivity.
  destruct op; unfold mutator, js_succ, js_pred.
  - destruct (Z.eqb_spec c max_exact); lia.
  - destruct (Z.eqb_spec c (- max_exact)); lia.
  - lia.
Qed.

(** X4.  Two invariants of every store reached from a new one, whatever the
    calls of the owner and whatever the callbacks do (they may throw,
    subscribe, unsubscribe and update): no callback is an entry of the
    listener set twice, and the counter is an integer between -2^53 and
    2^53. *)
Theorem reachable_store_invariants
        (body : listener -> list action) (cs : list call) (fuel : nat) :
  ends_in (fun s => wf s /\ in_range s) (do_calls body fuel cs createCounterStore).
Proof.
  apply do_calls_invariant.
  - intros l s [Hwf Hr]. split; [now apply wf_subscribe|exact Hr].
  - intros l s [Hwf Hr]. split; [now apply wf_unsubscribe|exact Hr].
  - intros l s H. exact H.
  - intros op s [Hwf Hr]. split; [exact Hwf|]. now apply mutator_in_range.
  - split; [constructor|]. unfold in_range. simpl.
    assert (0 < max_exact)%Z by reflexivity. lia.
Qed.

Lemma values_delete_absent_add (l : listener) (s : JSSet.t) :
  has l s = false -> values (delete l (add l s)) = values s.
Proof.
  intros H. unfold add. rewrite H.
  rewrite delete_at by now apply has_false.
  rewrite values_app. simpl. now rewrite app_nil_r.
Qed.

(** X5.  [subscribe] followed by a call of the handle it returned leaves
    every callback other than the subscribed one registered as before and
    that one not registered, and it keeps the value and the trace.  When
    the callback was not registered before, the registered callbacks and
    their order are what they were; when it was, its earlier registration
    is gone as well. *)
Theorem subscribe_then_unsubscribe (s : store) (l : listener) :
  wf s ->
  let s' := snd (unsubscribe l (subscribe l s)) in
  getSnapshot s' = getSnapshot s /\
  calls s' = calls s /\
  has l (listeners s') = false /\
  (forall x, x <> l -> has x (listeners s') = has x (listeners s)) /\
  (has l (listeners s) = false -> values (listeners s') = values (listeners s)).
Proof.
  intros Hwf s'. split; [reflexivity|]. split; [reflexivity|]. split; [|split].
  - apply has_delete. now apply NoDup_add.
  - intros x Hx. simpl. now rewrite has_delete_other, has_add_other.
  - intros H. simpl. now apply values_delete_absent_add.
Qed.

Lemma subscribe_then_unsubscribe_witness :
  let s := subscribe_all [1; 2] createCounterStore in
  let s' := snd (unsubscribe 7 (subscribe 7 s)) in
  getSnapshot s' = getSnapshot s /\
  calls s' = calls s /\
  has 7 (listeners s') = false /\
  (forall x, x <> 7 -> has x (listeners s') = has x (listeners s)) /\
  (has 7 (listeners s) = false -> values (listeners s') = values (listeners s)).
Proof.
  apply (@subscribe_then_unsubscribe (subscribe_all [1; 2] createCounterStore) 7).
  unfold wf. simpl. repeat constructor; simpl; intuition discriminate.
Defined.

End CounterMore.

(** ** More about the online store *)

Module OnlineMore.
Import JSSet JSSetFacts ForEachFacts Online OnlineSpec OnlineCalls.

Lemma remove_twice (k : nat) (hs : list nat) :
  removeEventListener k (removeEventListener k hs) = removeEventListener k hs.
Proof. unfold removeEventListener. apply notin_remove. apply remove_In. Qed.

(** X6.  A handle of the online store can be called again: the second call
    changes neither the listener set nor the handlers on [window] nor
    anything else. *)
Theorem online_unsubscribe_again_is_noop (h : handle) (s : store) :
  wf s ->
  unsubscribe h (unsubscribe h s) = unsubscribe h s.
Proof.
  intros Hwf. unfold unsubscribe. destruct (pair h) as [k|]; simpl.
  - unfold with_handlers, with_listeners. simpl.
    now rewrite delete_delete, !remove_twice.
  - unfold with_listeners. simpl. now rewrite delete_delete.
Qed.

Lemma online_unsubscribe_again_is_noop_witness :
  let s := snd (subscribe_all [4; 5] (createOnlineStore true false)) in
  unsubscribe (Handle 4 (Some 0)) (unsubscribe (Handle 4 (Some 0)) s)
  = unsubscribe (Handle 4 (Some 0)) s.
Proof.
  apply (@online_unsubscribe_again_is_noop (Handle 4 (Some 0))
           (snd (subscribe_all [4; 5] (createOnlineStore true false)))).
  unfold wf. simpl. repeat constructor; simpl; intuition discriminate.
Defined.

Lemma wf_online_unsubscribe (h : handle) (s : store) :
  wf s -> wf (unsubscribe h s).
Proof.
  intros H. unfold wf, unsubscribe.
  destruct (pair h); simpl; now apply NoDup_delete.
Qed.

Lemma unsubscribe_frame (h : handle) (s : store) :
  isOnline (unsubscribe h s) = isOnline s /\
  calls (unsubscribe h s) = calls s /\
  listeners (unsubscribe h s) = delete (target h) (listeners s).
Proof. unfold unsubscribe. destruct (pair h); repeat split. Qed.

Lemma handlers_after_unsubscribe (h : handle) (s : store) (k : nat) :
  (In k (on_online (unsubscribe h s)) -> In k (on_online s) /\ pair h <> Some k) /\
  (In k (on_offline (unsubscribe h s)) -> In k (on_offline s) /\ pair h <> Some k).
Proof.
  unfold unsubscribe. destruct (pair h) as [j|]; simpl.
  - rewrite !In_removeEventListener. split; intros [H1 H2]; (split; congruence).
  - split; intros H; (split; [exact H|discriminate]).
Qed.

Lemma unsubscribe_all_removes (hs : list handle) :
  forall s,
    wf s ->
    wf (unsubscribe_all hs s) /\
    isOnline (unsubscribe_all hs s) = isOnline s /\
    calls (unsubscribe_all hs s) = calls s /\
    (forall k, In k (on_online (unsubscribe_all hs s)) ->
               In k (on_online s) /\ ~ In (Some k) (map pair hs)) /\
    (forall k, In k (on_offline (unsubscribe_all hs s)) ->
               In k (on_offline s) /\ ~ In (Some k) (map pair hs)) /\
    (forall x, In x (values (listeners (unsubscribe_all hs s))) ->
               In x (values (listeners s)) /\ ~ In x (map target hs)).
Proof.
  induction hs as [|h hs IH]; intros s Hwf.
  - simpl. repeat split; auto.
  - change (unsubscribe_all (h :: hs) s) with (unsubscribe_all hs (unsubscribe h s)).
    destruct (IH (unsubscribe h s) (wf_online_unsubscribe h Hwf))
      as (A & B & C & D & E & F).
    destruct (unsubscribe_frame h s) as (Fo & Fc & Fl).
    split; [exact A|]. split; [congruence|]. split; [congruence|].
    split; [|split].
    + intros k Hk. destruct (D k Hk) as [H1 H2].
      apply (proj1 (handlers_after_unsubscribe h s k)) in H1 as [H1 H3].
      split; [exact H1|]. simpl. intros [H|H]; [now apply H3|now apply H2].
    + intros k Hk. destruct (E k Hk) as [H1 H2].
      apply (proj2 (handlers_after_unsubscribe h s k)) in H1 as [H1 H3].
      split; [exact H1|]. simpl. intros [H|H]; [now apply H3|now apply H2].
    + intros x Hx. destruct (F x Hx) as [H1 H2]. rewrite Fl in H1.
      split; [now apply values_delete_notin in H1|].
      simpl. intros [H|H]; [|now apply H2]. subst x.
      apply has_In in H1. rewrite has_delete in H1 by exact Hwf. discriminate.
Qed.

Lemma no_elements (A : Type) (l : list A) : (forall x, ~ In x l) -> l = [].
Proof. destruct l as [|a l]; [reflexivity|]. intros H. now contradiction (H a (or_introl eq_refl)). Qed.

Lemma isOnline_subscribe_all (ls : list listener) :
  forall s, isOnline (snd (subscribe_all ls s)) = isOnline s.
Proof.
  induction ls as [|l ls IH]; intros s; [reflexivity|].
  rewrite subscribe_all_cons. cbn [snd]. rewrite IH.
  unfold subscribe. now destruct (has_window s).
Qed.

(** X7.  Nothing stays behind on [window] once every handle has been
    called (in any order, any number of times): both handler lists and the
    listener set are empty.  From then on the store does not follow the
    browser: an event changes nothing and [getSnapshot] keeps the value it
    had. *)
Theorem all_unsubscribed_store_is_deaf
        (body : listener -> list action) (ls : list listener)
        (navigator_onLine : bool) (hs' : list handle) (ev : event) (fuel : nat) :
  (forall h, In h (fst (subscribe_all ls (createOnlineStore true navigator_onLine))) ->
             In h hs') ->
  let s := unsubscribe_all hs'
             (snd (subscribe_all ls (createOnlineStore true navigator_onLine))) in
  on_online s = [] /\
  on_offline s = [] /\
  values (listeners s) = [] /\
  dispatch body fuel ev s = Returned s /\
  getSnapshot s = navigator_onLine.
Proof.
  intros Hall s.
  assert (H0 : all_installed (createOnlineStore true navigator_onLine))
    by (repeat split).
  destruct (subscribe_all_installs ls H0) as ((_ & Hon & Hoff) & B & C & D & E & _ & _).
  simpl in B, C, D. rewrite B in Hon, Hoff.
  destruct (@unsubscribe_all_removes hs'
              (snd (subscribe_all ls (createOnlineStore true navigator_onLine))))
    as (_ & Io & _ & On & Off & Ls); [apply E; constructor|].
  fold s in Io, On, Off, Ls.
  assert (Hk : forall k, k < length ls -> In (Some k) (map pair hs')).
  { intros k Hk. destruct (nth_error ls k) as [l|] eqn:El.
    - apply (in_map pair hs' (Handle l (Some k))). apply Hall.
      apply nth_error_In with (n := k). now apply C.
    - apply nth_error_None in El. lia. }
  assert (Eon : on_online s = []).
  { apply no_elements. intros k Hin. destruct (On k Hin) as [H1 H2].
    rewrite Hon in H1. apply in_seq in H1. apply H2, Hk. lia. }
  assert (Eoff : on_offline s = []).
  { apply no_elements. intros k Hin. destruct (Off k Hin) as [H1 H2].
    rewrite Hoff in H1. apply in_seq in H1. apply H2, Hk. lia. }
  split; [exact Eon|]. split; [exact Eoff|]. split; [|split].
  - apply no_elements. intros x Hin. destruct (Ls x Hin) as [H1 H2].
    apply D in H1. destruct H1 as [H1|[]].
    apply In_nth_error in H1 as (i & Hi).
    apply H2. apply (in_map target hs' (Handle x (Some i))). apply Hall.
    apply nth_error_In with (n := i). now apply C.
  - unfold dispatch. destruct ev; simpl; rewrite ?Eon, ?Eoff; reflexivity.
  - unfold getSnapshot. rewrite Io, isOnline_subscribe_all. reflexivity.
Qed.

Lemma all_unsubscribed_store_is_deaf_witness :
  let s := unsubscribe_all
             [Handle 8 (Some 1); Handle 7 (Some 0); Handle 8 (Some 1)]
             (snd (subscribe_all [7; 8] (createOnlineStore true true))) in
  on_online s = [] /\
  on_offline s = [] /\
  values (listeners s) = [] /\
  dispatch idlers 3 offline s = Returned s /\
  getSnapshot s = true.
Proof.
  apply (@all_unsubscribed_store_is_deaf idlers [7; 8] true
           [Handle 8 (Some 1); Handle 7 (Some 0); Handle 8 (Some 1)] offline 3).
  simpl. intros h [<-|[<-|[]]]; simpl; auto.
Defined.

(** Without [window] nothing is ever installed and no callback ever runs. *)
Definition on_server (s : store) : Prop :=
  has_window s = false /\ on_online s = [] /\ on_offline s = [] /\
  isOnline s = true /\ calls s = [].

Lemma on_server_do_call (body : listener -> list action) (fuel : nat) (c : call)
      (s : store) :
  on_server s ->
  exists s', do_call body fuel c s = Returned s' /\ on_server s'.
Proof.
  intros (Hw & Hon & Hoff & Hi & Hc). destruct c as [l|h|ev]; cbn [do_call].
  - eexists. split; [reflexivity|]. unfold subscribe. rewrite Hw. simpl.
    repeat split; assumption.
  - eexists. split; [reflexivity|]. unfold unsubscribe.
    destruct (pair h); simpl; rewrite ?Hon, ?Hoff; repeat split; assumption.
  - exists s. split; [|repeat split; assumption].
    unfold dispatch. destruct ev; simpl; rewrite ?Hon, ?Hoff; reflexivity.
Qed.

(** X8.  Where [window] is not defined (on the server) the online store is
    inert: whatever [navigator.onLine] would say and whatever calls are
    made, every call returns, no handler is installed, no callback is
    invoked, and [getSnapshot] is [true], which is also the server snapshot
    of [useOnlineStatus]. *)
Theorem server_store_agrees_with_server_snapshot
        (body : listener -> list action) (navigator_onLine : bool)
        (cs : list call) (fuel : nat) :
  exists s,
    do_calls body fuel cs (createOnlineStore false navigator_onLine) = Returned s /\
    getSnapshot s = serverSnapshot /\
    on_online s = [] /\ on_offline s = [] /\
    calls s = [].
Proof.
  assert (H : forall s, on_server s ->
                        exists s', do_calls body fuel cs s = Returned s' /\ on_server s').
  { induction cs as [|c cs IH]; intros s Hs.
    - exists s. split; [reflexivity|exact Hs].
    - cbn [do_calls]. destruct (on_server_do_call body fuel c Hs) as (s1 & E1 & H1).
      rewrite E1. now apply IH. }
  destruct (H (createOnlineStore false navigator_onLine)) as (s & E & Hs).
  { repeat split. }
  exists s. split; [exact E|]. destruct Hs as (_ & Hon & Hoff & Hi & Hc).
  repeat split; assumption.
Qed.

(** X9.  Subscribing the same callback twice and calling one of the two
    handles leaves the other subscription dead: the callback is no longer
    in the listener set although one handler pair is still installed, so an
    event still changes [isOnline] but invokes nobody. *)
Theorem second_subscription_is_orphaned
        (body : listener -> list action) (l : listener) (navigator_onLine : bool)
        (first : bool) (ev : event) (fuel : nat) :
  1 < fuel ->
  let s := snd (subscribe_all [l; l] (createOnlineStore true navigator_onLine)) in
  let h := Handle l (Some (if first then 0 else 1)) in
  In h (fst (subscribe_all [l; l] (createOnlineStore true navigator_onLine))) /\
  has l (listeners (unsubscribe h s)) = false /\
  on_online (unsubscribe h s) = [if first then 1 else 0] /\
  on_offline (unsubscribe h s) = [if first then 1 else 0] /\
  dispatch body fuel ev (unsubscribe h s)
  = Returned (with_isOnline (goes_online ev) (unsubscribe h s)).
Proof.
  intros Hfuel s h.
  assert (Es : s = Store navigator_onLine [Some l] true [0; 1] [0; 1] 2 [] 0).
  { unfold s. simpl. unfold subscribe. simpl. unfold add. simpl.
    now rewrite Nat.eqb_refl. }
  assert (Eu : unsubscribe h s
               = Store navigator_onLine [None] true
                       [if first then 1 else 0] [if first then 1 else 0] 2 [] 0).
  { rewrite Es. unfold h, unsubscribe. simpl. rewrite Nat.eqb_refl.
    destruct first; reflexivity. }
  split.
  { unfold h. simpl. unfold subscribe. simpl. destruct first; simpl; auto. }
  rewrite Eu. split; [reflexivity|]. split; [reflexivity|]. split; [reflexivity|].
  destruct fuel as [|[|fuel]]; try lia.
  destruct ev, first; reflexivity.
Qed.

Lemma second_subscription_is_orphaned_witness :
  let s := snd (subscribe_all [6; 6] (createOnlineStore true true)) in
  let h := Handle 6 (Some 0) in
  In h (fst (subscribe_all [6; 6] (createOnlineStore true true))) /\
  has 6 (listeners (unsubscribe h s)) = false /\
  on_online (unsubscribe h s) = [1] /\
  on_offline (unsubscribe h s) = [1] /\
  dispatch idlers 2 offline (unsubscribe h s)
  = Returned (with_isOnline false (unsubscribe h s)).
Proof.
  apply (@second_subscription_is_orphaned idlers 6 true true offline 2). lia.
Defined.

Lemma online_record_visits (l : listener) (ls : list listener) (s : store) :
  record l (visits ls s) = visits (ls ++ [l]) s.
Proof. unfold record, visits. simpl. now rewrite <- app_assoc. Qed.

Lemma online_run_throws_first (acts : list action) (s : store) :
  throws_first acts = true -> run acts s = Thrown s.
Proof.
  induction acts as [|a acts IH]; simpl; [discriminate|].
  destruct a; try discriminate; auto.
Qed.

Lemma broken_round_step (ev : event) (ls : list listener) (x : listener)
      (s : store) :
  listeners (broken_round ev ls s) = listeners s /\
  on_online (broken_round ev ls s) = on_online s /\
  on_offline (broken_round ev ls s) = on_offline s /\
  reported (broken_round ev ls s) = S (reported s) /\
  times x (broken_round ev ls s) = times x s + count_occ Nat.eq_dec ls x /\
  isOnline (broken_round ev ls s) = goes_online ev.
Proof.
  repeat split. unfold times, broken_round. simpl. apply count_occ_app.
Qed.

Lemma iter_broken_round (ev : event) (ls : list listener) (x : listener)
      (n : nat) (s : store) :
  listeners (Nat.iter n (broken_round ev ls) s) = listeners s /\
  on_online (Nat.iter n (broken_round ev ls) s) = on_online s /\
  on_offline (Nat.iter n (broken_round ev ls) s) = on_offline s /\
  reported (Nat.iter n (broken_round ev ls) s) = reported s + n /\
  times x (Nat.iter n (broken_round ev ls) s)
  = times x s + n * count_occ Nat.eq_dec ls x /\
  (0 < n -> isOnline (Nat.iter n (broken_round ev ls) s) = goes_online ev).
Proof.
  induction n as [|n (L & On & Off & R & T & _)].
  - simpl. repeat split; lia.
  - rewrite Nat.iter_succ.
    destruct (broken_round_step ev ls x (Nat.iter n (broken_round ev ls) s))
      as (L' & On' & Off' & R' & T' & I').
    rewrite L', On', Off', R', T', L, On, Off, R, T.
    repeat split; auto; lia.
Qed.

Section Broken.
Variable body : listener -> list action.

Lemma handler_meets_thrower (ev : event) (fuel : nat) (s : store)
      (pre : JSSet.t) (t : listener) (post : JSSet.t) :
  listeners s = pre ++ Some t :: post ->
  (forall x, In x (values pre) -> quiet body x) ->
  throws_first (body t) = true ->
  length pre < fuel ->
  handler body ev fuel s
  = Thrown (visits (values pre ++ [t]) (with_isOnline (goes_online ev) s)).
Proof.
  intros Hs Hpre Ht Hfuel.
  assert (H : forall w, listeners w = listeners s ->
                forEach listeners (invoke body) fuel 0 w
                = Thrown (visits (values pre ++ [t]) w)).
  { intros w Hw.
    rewrite (@forEach_inert_at store listeners (invoke body) record (fun _ => True)
               (fun _ _ => eq_refl) (fun _ _ _ => I) pre [] (Some t :: post));
      auto; [|now rewrite Hw|
             intros x Hx w' _; apply online_run_only_reads; now apply Hpre|lia].
    rewrite online_visit_all_record.
    rewrite (@forEach_at_index store listeners (invoke body) pre t post);
      [|simpl; lia|now rewrite <- Hs, <- Hw|lia].
    unfold invoke. now rewrite online_run_throws_first, online_record_visits. }
  destruct ev; unfold handler, handleOnline, handleOffline; now apply H.
Qed.

Lemma invoke_handlers_meet_thrower (ev : event) (fuel : nat) (pre : JSSet.t)
      (t : listener) (post : JSSet.t) (ks : list nat) :
  (forall x, In x (values pre) -> quiet body x) ->
  throws_first (body t) = true ->
  length pre < fuel ->
  forall s,
    listeners s = pre ++ Some t :: post ->
    (forall k, In k ks -> In k (installed ev s)) ->
    invoke_handlers body fuel ev ks s
    = Returned (Nat.iter (length ks) (broken_round ev (values pre ++ [t])) s).
Proof.
  intros Hpre Ht Hfuel.
  induction ks as [|k ks IH]; intros s Hs Hks; [reflexivity|].
  cbn [invoke_handlers].
  assert (Hk : existsb (Nat.eqb k) (installed ev s) = true).
  { apply existsb_exists. exists k. split; [|apply Nat.eqb_refl].
    apply Hks. now left. }
  rewrite Hk, (@handler_meets_thrower ev fuel s pre t post) by assumption.
  fold (broken_round ev (values pre ++ [t]) s). rewrite IH.
  - cbn [length]. now rewrite Nat.iter_succ_r.
  - exact Hs.
  - intros k' Hk'. assert (Hin : In k' (installed ev s)) by (apply Hks; now right).
    destruct ev; exact Hin.
Qed.
End Broken.

(** X10.  A callback that throws does not stop the event: every installed
    handler still runs, sets [isOnline], invokes the callbacks registered
    before the thrower and the thrower, and ends there with an exception
    that is reported; the dispatch returns.  The callbacks registered after
    the thrower are never invoked. *)
Theorem online_thrower_starves_later_listeners
        (body : listener -> list action) (s : store) (pre : JSSet.t)
        (t : listener) (post : JSSet.t) (ev : event) (fuel : nat) :
  wf s ->
  listeners s = pre ++ Some t :: post ->
  (forall x, In x (values pre) -> quiet body x) ->
  throws_first (body t) = true ->
  length pre < fuel ->
  exists s',
    dispatch body fuel ev s = Returned s' /\
    reported s' = reported s + length (installed ev s) /\
    (installed ev s <> [] -> getSnapshot s' = goes_online ev) /\
    times t s' = times t s + length (installed ev s) /\
    (forall x, In x (values pre) -> times x s' = times x s + length (installed ev s)) /\
    (forall x, In x (values post) -> times x s' = times x s).
Proof.
  intros Hwf Hs Hpre Ht Hfuel.
  exists (Nat.iter (length (installed ev s)) (broken_round ev (values pre ++ [t])) s).
  split.
  { unfold dispatch.
    apply invoke_handlers_meet_thrower with (pre := pre) (t := t) (post := post);
      auto. }
  unfold wf in Hwf. rewrite Hs, CounterSpec.values_around in Hwf.
  assert (Hnd : NoDup (values pre ++ [t])) by now apply NoDup_app_remove_r in Hwf.
  assert (Hone : forall x, In x (values pre ++ [t]) ->
                           count_occ Nat.eq_dec (values pre ++ [t]) x = 1).
  { intros x Hx. now apply (proj1 (NoDup_count_occ' Nat.eq_dec _) Hnd). }
  split; [|split; [|split; [|split]]].
  - apply (iter_broken_round ev (values pre ++ [t]) t).
  - intros Hne. apply (iter_broken_round ev (values pre ++ [t]) t).
    destruct (installed ev s); [congruence|simpl; lia].
  - destruct (iter_broken_round ev (values pre ++ [t]) t
                                (length (installed ev s)) s) as (_ & _ & _ & _ & T & _).
    rewrite T, Hone; [lia|]. apply in_or_app. right. now left.
  - intros x Hx.
    destruct (iter_broken_round ev (values pre ++ [t]) x
                                (length (installed ev s)) s) as (_ & _ & _ & _ & T & _).
    rewrite T, Hone; [lia|]. apply in_or_app. now left.
  - intros x Hx.
    destruct (iter_broken_round ev (values pre ++ [t]) x
                                (length (installed ev s)) s) as (_ & _ & _ & _ & T & _).
    rewrite T. rewrite (proj1 (count_occ_not_In Nat.eq_dec _ x)); [lia|].
    intros Hin. exact (CounterSpec.NoDup_app_disjoint _ _ Hwf x Hin Hx).
Qed.

Lemma online_thrower_starves_later_listeners_witness :
  let s := snd (subscribe_all [1; 2; 3] (createOnlineStore true true)) in
  exists s',
    dispatch with_thrower 2 offline s = Returned s' /\
    reported s' = 3 /\
    ([0; 1; 2] <> [] -> getSnapshot s' = false) /\
    times 2 s' = 3 /\
    (forall x, In x [1] -> times x s' = 3) /\
    (forall x, In x [3] -> times x s' = 0).
Proof.
  apply (@online_thrower_starves_later_listeners with_thrower
           (snd (subscribe_all [1; 2; 3] (createOnlineStore true true)))
           [Some 1] 2 [Some 3] offline 2).
  - unfold wf. simpl. repeat constructor; simpl; intuition discriminate.
  - reflexivity.
  - intros x [<-|[]]. reflexivity.
  - reflexivity.
  - simpl. lia.
Defined.

(** X11.  While at least one subscription is active and the callbacks are
    quiet, [getSnapshot] follows the browser: after any events it tells
    whether the last of them was [online]. *)
Theorem snapshot_follows_last_event
        (body : listener -> list action) (evs : list event) :
  forall (s : store) (fuel : nat),
    on_online s <> [] ->
    on_offline s <> [] ->
    (forall l, In l (values (listeners s)) -> quiet body l) ->
    length (listeners s) < fuel ->
    evs <> [] ->
    exists s',
      do_calls body fuel (map CEvent evs) s = Returned s' /\
      getSnapshot s' = goes_online (last evs online).
Proof.
  induction evs as [|ev evs IH]; intros s fuel Hon Hoff Hq Hfuel Hne; [congruence|].
  cbn [map do_calls do_call]. rewrite dispatch_quiet by assumption.
  set (n := length (installed ev s)).
  assert (Hn : 0 < n).
  { unfold n. destruct ev; simpl; [destruct (on_online s)|destruct (on_offline s)];
      simpl; try congruence; lia. }
  destruct (iter_round_frame ev n s) as (L & On & Off & I).
  destruct evs as [|ev' evs].
  - eexists. split; [reflexivity|]. simpl. now apply I.
  - destruct (IH (Nat.iter n (round ev) s) fuel) as (s' & E & G).
    + now rewrite On.
    + now rewrite Off.
    + now rewrite L.
    + now rewrite L.
    + discriminate.
    + exists s'. split; [exact E|]. rewrite G. reflexivity.
Qed.

Lemma snapshot_follows_last_event_witness :
  exists s',
    do_calls idlers 3 (map CEvent [offline; online; offline])
             (snd (subscribe_all [1; 2] (createOnlineStore true true)))
    = Returned s' /\
    getSnapshot s' = false.
Proof.
  apply (@snapshot_follows_last_event idlers [offline; online; offline]
           (snd (subscribe_all [1; 2] (createOnlineStore true true))) 3).
  - discriminate.
  - discriminate.
  - intros l _. reflexivity.
  - simpl. lia.
  - discriminate.
Defined.

End OnlineMore.

(** ** What the window size store does *)

Module WindowSizeSpec.
Import JSSet JSSetFacts ForEachFacts WindowSize.

Lemma size_visit_all_record (ls : list listener) (s : store) :
  visit_all record ls s = visits ls s.
Proof.
  unfold visit_all. revert s. induction ls as [|l ls IH]; intros s; simpl.
  - unfold visits. rewrite app_nil_r. now destruct s.
  - rewrite IH. unfold visits, record. simpl. now rewrite <- app_assoc.
Qed.

Lemma size_run_only_reads (acts : list action) (s : store) :
  only_reads acts = true -> run acts s = Returned s.
Proof.
  induction acts as [|a acts IH]; simpl; [reflexivity|].
  destruct a; try discriminate. exact IH.
Qed.

Lemma dims_eta (d : dims) : Dims (width d) (height d) = d.
Proof. now destruct d. Qed.

Lemma round_frame (s : store) :
  listeners (round s) = listeners s /\
  on_resize (round s) = on_resize s /\
  inner (round s) = inner s /\
  size (round s) = inner s /\
  forall x, times x (round s)
            = times x s + count_occ Nat.eq_dec (values (listeners s)) x.
Proof.
  repeat split.
  - simpl. apply dims_eta.
  - intros x. unfold times, round, visits. simpl. apply count_occ_app.
Qed.

Lemma iter_round (n : nat) (s : store) :
  listeners (Nat.iter n round s) = listeners s /\
  on_resize (Nat.iter n round s) = on_resize s /\
  inner (Nat.iter n round s) = inner s /\
  (0 < n -> size (Nat.iter n round s) = inner s) /\
  (n = 0 -> size (Nat.iter n round s) = size s) /\
  forall x, times x (Nat.iter n round s)
            = times x s + n * count_occ Nat.eq_dec (values (listeners s)) x.
Proof.
  induction n as [|n (L & H & I & _ & _ & T)].
  - simpl. repeat split; auto; lia.
  - rewrite Nat.iter_succ.
    destruct (round_frame (Nat.iter n round s)) as (L' & H' & I' & S' & T').
    rewrite L', H', I', S', L, H, I.
    repeat split; auto; try lia.
    intros x. rewrite T', T, L. lia.
Qed.

Section Body.
Variable body : listener -> list action.

Lemma handleResize_quiet (fuel : nat) (s : store) :
  (forall l, In l (values (listeners s)) -> quiet body l) ->
  length (listeners s) < fuel ->
  handleResize body fuel s = Returned (round s).
Proof.
  intros Hq Hfuel. unfold handleResize, round.
  set (w := with_size (Dims (width (inner s)) (height (inner s))) s).
  change (visits (values (listeners s)) w) with (visits (values (listeners w)) w).
  rewrite <- size_visit_all_record.
  apply (@forEach_all_inert store listeners _ record (fun _ => True)); auto.
  intros l Hl w' _. apply size_run_only_reads. now apply Hq.
Qed.

Lemma size_invoke_handlers_quiet (fuel : nat) (ks : list nat) :
  forall s,
    (forall k, In k ks -> In k (on_resize s)) ->
    (forall l, In l (values (listeners s)) -> quiet body l) ->
    length (listeners s) < fuel ->
    invoke_handlers body fuel ks s = Returned (Nat.iter (length ks) round s).
Proof.
  induction ks as [|k ks IH]; intros s Hks Hq Hfuel; [reflexivity|].
  cbn [invoke_handlers].
  assert (Hk : existsb (Nat.eqb k) (on_resize s) = true).
  { apply existsb_exists. exists k. split; [|apply Nat.eqb_refl].
    apply Hks. now left. }
  rewrite Hk, handleResize_quiet by assumption.
  rewrite IH.
  - cbn [length]. now rewrite Nat.iter_succ_r.
  - intros k' Hk'. apply Hks. now right.
  - exact Hq.
  - exact Hfuel.
Qed.

End Body.

(** X12.  A resize with quiet callbacks: the dispatch returns; when at
    least one handler is installed [getSnapshot] is the new size of the
    window and every registered callback has been invoked once per
    installed handler; when none is installed the store keeps the size it
    had, though the window has changed. *)
Theorem window_size_follows_resize
        (body : listener -> list action) (s : store) (d : dims) (fuel : nat) :
  wf s ->
  (forall l, In l (values (listeners s)) -> quiet body l) ->
  length (listeners s) < fuel ->
  exists s',
    resize body fuel d s = Returned s' /\
    inner s' = d /\
    listeners s' = listeners s /\
    on_resize s' = on_resize s /\
    (on_resize s <> [] -> getSnapshot s' = d) /\
    (on_resize s = [] -> getSnapshot s' = getSnapshot s) /\
    (forall l, In l (values (listeners s)) ->
               times l s' = times l s + length (on_resize s)).
Proof.
  intros Hwf Hq Hfuel. eexists. split.
  { unfold resize. apply size_invoke_handlers_quiet; auto. }
  destruct (iter_round (length (on_resize s)) (with_inner d s))
    as (L & H & I & S1 & S2 & T).
  cbn [on_resize with_inner] in *.
  split; [exact I|]. split; [exact L|]. split; [exact H|].
  split; [|split].
  - intros Hne. apply S1. destruct (on_resize s); [congruence|simpl; lia].
  - intros He. apply S2. now rewrite He.
  - intros l Hl. rewrite T. cbn [listeners with_inner].
    rewrite (proj1 (NoDup_count_occ' Nat.eq_dec _) Hwf l Hl). unfold times. simpl. lia.
Qed.

Lemma window_size_follows_resize_witness :
  let s := snd (subscribe 2 (snd (subscribe 1 (createWindowSizeStore true (Dims 800 600))))) in
  exists s',
    resize idlers 3 (Dims 1024 768) s = Returned s' /\
    inner s' = Dims 1024 768 /\
    listeners s' = listeners s /\
    on_resize s' = on_resize s /\
    (on_resize s <> [] -> getSnapshot s' = Dims 1024 768) /\
    (on_resize s = [] -> getSnapshot s' = getSnapshot s) /\
    (forall l, In l (values (listeners s)) -> times l s' = times l s + 2).
Proof.
  apply (@window_size_follows_resize idlers
           (snd (subscribe 2 (snd (subscribe 1 (createWindowSizeStore true (Dims 800 600))))))
           (Dims 1024 768) 3).
  - unfold wf. simpl. repeat constructor; simpl; intuition discriminate.
  - intros l _. reflexivity.
  - simpl. lia.
Defined.

(** Without [window] nothing is ever installed and no callback ever runs. *)
Definition size_on_server (s : store) : Prop :=
  has_window s = false /\ on_resize s = [] /\ size s = Dims 0 0 /\ calls s = [].

Lemma size_on_server_do_call (body : listener -> list action) (fuel : nat)
      (c : call) (s : store) :
  size_on_server s ->
  exists s', do_call body fuel c s = Returned s' /\ size_on_server s'.
Proof.
  intros (Hw & Hr & Hs & Hc). destruct c as [l|h|d]; cbn [do_call].
  - eexists. split; [reflexivity|]. unfold subscribe. rewrite Hw. simpl.
    repeat split; assumption.
  - eexists. split; [reflexivity|]. unfold unsubscribe.
    destruct (resizer h); simpl; rewrite ?Hr; repeat split; assumption.
  - unfold resize. rewrite Hr. eexists. split; [reflexivity|].
    repeat split; assumption.
Qed.

(** X13.  Where [window] is not defined (on the server) the window size
    store is inert: whatever calls are made, every call returns, no handler
    is installed, no callback is invoked, and [getSnapshot] is 0 by 0,
    which is also the server snapshot of [useWindowSize]. *)
Theorem server_size_agrees_with_server_snapshot
        (body : listener -> list action) (inner : dims)
        (cs : list call) (fuel : nat) :
  exists s,
    do_calls body fuel cs (createWindowSizeStore false inner) = Returned s /\
    getSnapshot s = serverSnapshot /\
    on_resize s = [] /\
    calls s = [].
Proof.
  assert (H : forall s, size_on_server s ->
                exists s', do_calls body fuel cs s = Returned s' /\ size_on_server s').
  { induction cs as [|c cs IH]; intros s Hs.
    - exists s. split; [reflexivity|exact Hs].
    - cbn [do_calls].
      destruct (size_on_server_do_call body fuel c Hs) as (s1 & E1 & H1).
      rewrite E1. now apply IH. }
  destruct (H (createWindowSizeStore false inner)) as (s & E & Hs).
  { repeat split. }
  exists s. split; [exact E|]. destruct Hs as (_ & Hr & Hs & Hc).
  repeat split; assumption.
Qed.

(** X14.  The store measures the window only when it is created and inside
    a resize handler.  After the last handle has been called a resize goes
    unnoticed, and a later [subscribe] does not measure either: the new
    subscriber reads the size the window had before, until the next
    resize. *)
Theorem resubscriber_reads_stale_size
        (body : listener -> list action) (l l' : listener) (d0 d : dims)
        (fuel : nat) :
  let s1 := snd (subscribe l (createWindowSizeStore true d0)) in
  let h := fst (subscribe l (createWindowSizeStore true d0)) in
  on_resize (unsubscribe h s1) = [] /\
  exists s2,
    resize body fuel d (unsubscribe h s1) = Returned s2 /\
    inner s2 = d /\
    getSnapshot s2 = d0 /\
    getSnapshot (snd (subscribe l' s2)) = d0 /\
    on_resize (snd (subscribe l' s2)) = [1].
Proof.
  intros s1 h. split; [reflexivity|].
  eexists. split; [reflexivity|]. simpl.
  repeat split; apply dims_eta.
Qed.

End WindowSizeSpec.

(** ** What the todo reducer does *)

Module TodosSpec.
Import Todos.

Lemma state_eta (s : TodoState) : mkTodoState (todos s) (filter s) = s.
Proof. now destruct s. Qed.

Lemma map_unchanged (A : Type) (f : A -> A) (l : list A) :
  (forall x, In x l -> f x = x) -> map f l = l.
Proof.
  induction l as [|a l IH]; intros H; simpl; [reflexivity|].
  rewrite H by now left. rewrite IH; [reflexivity|]. intros x Hx. apply H. now right.
Qed.

Lemma filter_unchanged (A : Type) (f : A -> bool) (l : list A) :
  (forall x, In x l -> f x = true) -> List.filter f l = l.
Proof.
  induction l as [|a l IH]; intros H; simpl; [reflexivity|].
  rewrite H by now left. rewrite IH; [reflexivity|]. intros x Hx. apply H. now right.
Qed.

(** X15.  Toggling the same id twice gives the state back, whatever the
    todos are. *)
Theorem toggle_twice_restores (now now' : Z) (s : TodoState) (i : Z) :
  todoReducer now' (todoReducer now s (TOGGLE_TODO i)) (TOGGLE_TODO i) = s.
Proof.
  destruct s as [ts f]. unfold todoReducer. simpl. f_equal.
  rewrite map_map. apply map_unchanged. intros [j t c] _. simpl.
  destruct (Z.eqb_spec j i) as [->|Hj]; simpl.
  - now rewrite Z.eqb_refl, negb_involutive.
  - destruct (Z.eqb_spec j i); [contradiction|reflexivity].
Qed.

(** X16.  An action that names an id that no todo has changes nothing:
    toggling, editing and deleting a missing todo return the state they
    were given. *)
Theorem missing_id_changes_nothing (now : Z) (s : TodoState) (i : Z)
        (t : String.string) :
  ~ In i (map id (todos s)) ->
  todoReducer now s (TOGGLE_TODO i) = s /\
  todoReducer now s (EDIT_TODO i t) = s /\
  todoReducer now s (DELETE_TODO i) = s.
Proof.
  intros Hi.
  assert (Hne : forall x, In x (todos s) -> (id x =? i)%Z = false).
  { intros x Hx. apply Z.eqb_neq. intros E. apply Hi. rewrite <- E.
    now apply in_map. }
  unfold todoReducer. repeat split.
  - rewrite map_unchanged; [apply state_eta|]. intros x Hx. now rewrite Hne.
  - rewrite map_unchanged; [apply state_eta|]. intros x Hx. now rewrite Hne.
  - rewrite filter_unchanged; [apply state_eta|]. intros x Hx. now rewrite Hne.
Qed.

Lemma missing_id_changes_nothing_witness :
  todoReducer 5 initialTodoState (TOGGLE_TODO 3) = initialTodoState /\
  todoReducer 5 initialTodoState (EDIT_TODO 3 String.EmptyString) = initialTodoState /\
  todoReducer 5 initialTodoState (DELETE_TODO 3) = initialTodoState.
Proof.
  apply (@missing_id_changes_nothing 5 initialTodoState 3 String.EmptyString).
  simpl. intuition discriminate.
Defined.

Lemma filter_filter_same (A : Type) (f : A -> bool) (l : list A) :
  List.filter f (List.filter f l) = List.filter f l.
Proof.
  apply filter_unchanged. intros x Hx. now apply filter_In in Hx.
Qed.

(** X17.  [DELETE_TODO] removes every todo with the given id and no other:
    the todos left are those with another id, in the order they had; the
    filter stays; deleting the same id again changes nothing. *)
Theorem delete_removes_exactly_that_id (now now' : Z) (s : TodoState) (i : Z) :
  let s' := todoReducer now s (DELETE_TODO i) in
  (forall t, In t (todos s') <-> In t (todos s) /\ id t <> i) /\
  ~ In i (map id (todos s')) /\
  filter s' = filter s /\
  total s' <= total s /\
  todoReducer now' s' (DELETE_TODO i) = s'.
Proof.
  intros s'.
  assert (Hin : forall t, In t (todos s') <-> In t (todos s) /\ id t <> i).
  { intros t. unfold s'. simpl. rewrite filter_In, negb_true_iff, Z.eqb_neq.
    reflexivity. }
  assert (Hno : ~ In i (map id (todos s'))).
  { intros H. apply in_map_iff in H as (t & E & Ht). apply Hin in Ht. tauto. }
  split; [exact Hin|]. split; [exact Hno|]. split; [reflexivity|]. split.
  - unfold total, s'. simpl. apply filter_length_le.
  - unfold s', todoReducer. simpl. now rewrite filter_filter_same.
Qed.

Lemma filter_partition_length (A : Type) (f : A -> bool) (l : list A) :
  length l = length (List.filter (fun x => negb (f x)) l) + length (List.filter f l).
Proof.
  induction l as [|a l IH]; simpl; [reflexivity|].
  destruct (f a); simpl; lia.
Qed.

(** X18.  The footer adds up, and the list shown has the length the footer
    gives for the filter chosen: in every state the total is the number of
    active todos plus the number of completed ones, and the todos shown
    are as many as the total, the active or the completed ones. *)
Theorem footer_counts_add_up (s : TodoState) :
  total s = activeCount s + completedCount s /\
  length (filteredTodos s)
  = match filter s with
    | all => total s
    | active => activeCount s
    | completed_only => completedCount s
    end.
Proof.
  split.
  - unfold total, activeCount, completedCount. apply filter_partition_length.
  - unfold filteredTodos, total, activeCount, completedCount.
    destruct (filter s); try reflexivity.
    now rewrite filter_unchanged.
Qed.

Lemma filter_none (A : Type) (f g : A -> bool) (l : list A) :
  (forall x, f x = true -> g x = false) -> List.filter g (List.filter f l) = [].
Proof.
  intros H. induction l as [|a l IH]; simpl; [reflexivity|].
  destruct (f a) eqn:E; simpl; [|exact IH]. now rewrite (H a E).
Qed.

(** X19.  [CLEAR_COMPLETED] leaves the active todos, all of them and in
    their order: afterwards nothing is completed, the active count is what
    it was and is now the total, the list shown under the filter
    [completed] is empty, and clearing again changes nothing. *)
Theorem clear_completed_keeps_the_active (now now' : Z) (s : TodoState) :
  let s' := todoReducer now s CLEAR_COMPLETED in
  (forall t, In t (todos s') <-> In t (todos s) /\ completed t = false) /\
  completedCount s' = 0 /\
  activeCount s' = activeCount s /\
  total s' = activeCount s /\
  filteredTodos (todoReducer now' s' (SET_FILTER completed_only)) = [] /\
  todoReducer now' s' CLEAR_COMPLETED = s'.
Proof.
  intros s'. split; [|split; [|split; [|split; [|split]]]].
  - intros t. unfold s'. simpl. now rewrite filter_In, negb_true_iff.
  - unfold completedCount, s'. simpl. rewrite filter_none; [reflexivity|].
    intros x Hx. now apply negb_true_iff.
  - unfold activeCount, s'. simpl. now rewrite filter_filter_same.
  - reflexivity.
  - unfold filteredTodos, s'. simpl. apply filter_none.
    intros x Hx. now apply negb_true_iff.
  - unfold s', todoReducer. simpl. now rewrite filter_filter_same.
Qed.

Lemma ids_after_map (f : Todo -> Todo) (l : list Todo) :
  (forall t, id (f t) = id t) -> map id (map f l) = map id l.
Proof. intros H. rewrite map_map. apply map_ext. exact H. Qed.

Lemma NoDup_map_filter (f : Todo -> bool) (l : list Todo) :
  NoDup (map id l) -> NoDup (map id (List.filter f l)).
Proof.
  induction l as [|a l IH]; simpl; intros H; [constructor|].
  inversion H as [|? ? Ha Hl]; subst.
  destruct (f a); simpl; [|now apply IH].
  constructor; [|now apply IH].
  intros Hin. apply Ha. apply in_map_iff in Hin as (t & E & Ht).
  apply filter_In in Ht as [Ht _]. rewrite <- E. now apply in_map.
Qed.

Lemma ids_subset_filter (f : Todo -> bool) (l : list Todo) (i : Z) :
  In i (map id (List.filter f l)) -> In i (map id l).
Proof.
  intros H. apply in_map_iff in H as (t & E & Ht).
  apply filter_In in Ht as [Ht _]. rewrite <- E. now apply in_map.
Qed.

(** What one action does to the ids. *)
Lemma reducer_ids (now : Z) (s : TodoState) (a : TodoAction) (seen : list Z) :
  (forall i, In i (map id (todos s)) -> In i seen) ->
  unique_ids s ->
  match a with ADD_TODO _ => ~ In now seen | _ => True end ->
  unique_ids (todoReducer now s a) /\
  (forall i, In i (map id (todos (todoReducer now s a))) ->
             In i (match a with ADD_TODO _ => now :: seen | _ => seen end)).
Proof.
  intros Hseen Hu Hfresh. unfold unique_ids in *.
  destruct a as [p|i|i|f| |i t]; simpl.
  - rewrite map_app. simpl. split.
    + apply NoDup_app; [exact Hu|repeat constructor; simpl; tauto|].
      intros x Hx [<-|[]]. now apply Hfresh, Hseen.
    + intros i Hi. apply in_app_or in Hi as [Hi|[<-|[]]]; [right; now apply Hseen|now left].
  - rewrite ids_after_map; [now split|]. intros t. now destruct (id t =? i)%Z.
  - split; [now apply NoDup_map_filter|].
    intros j Hj. apply Hseen. now apply ids_subset_filter in Hj.
  - now split.
  - split; [now apply NoDup_map_filter|].
    intros j Hj. apply Hseen. now apply ids_subset_filter in Hj.
  - rewrite ids_after_map; [now split|]. intros x. now destruct (id x =? i)%Z.
Qed.

(** X20.  The ids stay distinct as long as the clock gives every added
    todo a reading that no todo has had before: from a state without
    duplicate ids, any sequence of actions leads to a state without
    duplicate ids. *)
Theorem ids_stay_unique (steps : list (Z * TodoAction)) :
  forall (s : TodoState) (seen : list Z),
    unique_ids s ->
    (forall i, In i (map id (todos s)) -> In i seen) ->
    fresh_clock seen steps ->
    unique_ids (dispatch_all s steps).
Proof.
  induction steps as [|[now a] steps IH]; intros s seen Hu Hseen Hfresh;
    [exact Hu|].
  cbn [dispatch_all].
  destruct (@reducer_ids now s a seen Hseen Hu) as [Hu' Hseen'].
  { destruct a; simpl in Hfresh; tauto. }
  destruct a; simpl in Hfresh;
    try (apply IH with (seen := seen); assumption).
  apply IH with (seen := now :: seen); tauto.
Qed.

Lemma ids_stay_unique_witness :
  unique_ids
    (dispatch_all initialTodoState
                  [(10%Z, ADD_TODO String.EmptyString); (10%Z, TOGGLE_TODO 1);
                   (11%Z, ADD_TODO String.EmptyString); (12%Z, DELETE_TODO 10)]).
Proof.
  apply (@ids_stay_unique
           [(10%Z, ADD_TODO String.EmptyString); (10%Z, TOGGLE_TODO 1);
            (11%Z, ADD_TODO String.EmptyString); (12%Z, DELETE_TODO 10)]
           initialTodoState [1%Z; 2%Z]).
  - unfold unique_ids. simpl. repeat constructor; simpl; intuition discriminate.
  - simpl. tauto.
  - simpl. intuition discriminate.
Defined.

(** X21.  The id of a todo is the clock reading at the time it is added,
    so two todos added within the same millisecond share their id; they
    are then toggled together and deleted together. *)
Theorem same_millisecond_todos_share_their_fate
        (now now' : Z) (s : TodoState) (a b : String.string) :
  ~ In now (map id (todos s)) ->
  let s2 := dispatch_all s [(now, ADD_TODO a); (now, ADD_TODO b)] in
  ~ unique_ids s2 /\
  todos (todoReducer now' s2 (TOGGLE_TODO now))
  = todos s ++ [mkTodo now a true; mkTodo now b true] /\
  todos (todoReducer now' s2 (DELETE_TODO now)) = todos s.
Proof.
  intros Hnew s2.
  assert (Hne : forall x, In x (todos s) -> (id x =? now)%Z = false).
  { intros x Hx. apply Z.eqb_neq. intros E. apply Hnew. rewrite <- E.
    now apply in_map. }
  assert (E2 : todos s2 = todos s ++ [mkTodo now a false; mkTodo now b false]).
  { unfold s2. simpl. now rewrite <- app_assoc. }
  split; [|split].
  - unfold unique_ids. rewrite E2, map_app. simpl. intros H.
    apply NoDup_app_remove_l in H. inversion H as [|? ? Hin _]. apply Hin. now left.
  - cbn [todoReducer todos]. rewrite E2, map_app. simpl.
    rewrite Z.eqb_refl. simpl. f_equal.
    apply map_unchanged. intros x Hx. now rewrite Hne.
  - cbn [todoReducer todos]. rewrite E2, filter_app. simpl.
    rewrite Z.eqb_refl. simpl. rewrite app_nil_r.
    apply filter_unchanged. intros x Hx. now rewrite Hne.
Qed.

Lemma same_millisecond_todos_share_their_fate_witness :
  let s2 := dispatch_all initialTodoState
                         [(7%Z, ADD_TODO String.EmptyString);
                          (7%Z, ADD_TODO String.EmptyString)] in
  ~ unique_ids s2 /\
  todos (todoReducer 9 s2 (TOGGLE_TODO 7))
  = todos initialTodoState
    ++ [mkTodo 7 String.EmptyString true; mkTodo 7 String.EmptyString true] /\
  todos (todoReducer 9 s2 (DELETE_TODO 7)) = todos initialTodoState.
Proof.
  apply (@same_millisecond_todos_share_their_fate 7 9 initialTodoState
           String.EmptyString String.EmptyString).
  simpl. intuition discriminate.
Defined.

(** X22.  [EDIT_TODO] changes texts only: ids, completed flags, order and
    filter stay; every todo with the given id has the new text, every
    other todo is as it was; and of two edits of the same id the later one
    decides. *)
Theorem edit_changes_only_the_text
        (now now' : Z) (s : TodoState) (i : Z) (a b : String.string) :
  let s' := todoReducer now s (EDIT_TODO i a) in
  map id (todos s') = map id (todos s) /\
  map completed (todos s') = map completed (todos s) /\
  filter s' = filter s /\
  (forall t, In t (todos s') -> id t = i -> text t = a) /\
  (forall t, id t <> i -> (In t (todos s') <-> In t (todos s))) /\
  todoReducer now' (todoReducer now s (EDIT_TODO i b)) (EDIT_TODO i a) = s'.
Proof.
  intros s'. unfold s'. cbn [todoReducer todos filter].
  split; [|split; [|split; [|split; [|split]]]].
  - rewrite map_map. apply map_ext. intros t. now destruct (id t =? i)%Z.
  - rewrite map_map. apply map_ext. intros t. now destruct (id t =? i)%Z.
  - reflexivity.
  - intros t Ht Hi. apply in_map_iff in Ht as (x & E & _). subst t.
    destruct (Z.eqb_spec (id x) i) as [_|Hx]; [reflexivity|].
    simpl in Hi. contradiction.
  - intros t Ht. rewrite in_map_iff. split.
    + intros (x & E & Hx). subst t.
      destruct (Z.eqb_spec (id x) i) as [Hi|_]; [|exact Hx].
      simpl in Ht. contradiction.
    + intros Hin. exists t. split; [|exact Hin].
      destruct (Z.eqb_spec (id t) i); [contradiction|reflexivity].
  - f_equal. rewrite map_map. apply map_ext. intros t.
    destruct (Z.eqb_spec (id t) i) as [E|E]; simpl.
    + destruct (Z.eqb_spec (id t) i); [reflexivity|contradiction].
    + destruct (Z.eqb_spec (id t) i); [contradiction|reflexivity].
Qed.

Lemma toggle_counts (i : Z) (l : list Todo) (t : Todo) :
  NoDup (map id l) ->
  In t l ->
  id t = i ->
  length (List.filter (fun x => completed x)
            (map (fun todo =>
                    if (id todo =? i)%Z
                    then mkTodo (id todo) (text todo) (negb (completed todo))
                    else todo) l))
  + (if completed t then 1 else 0)
  = length (List.filter (fun x => completed x) l)
    + (if completed t then 0 else 1).
Proof.
  intros Hnd Hin Hi. induction l as [|x l IH]; [contradiction|].
  inversion Hnd as [|? ? Hx Hl]; subst. destruct Hin as [->|Hin].
  - cbn [map List.filter]. rewrite Z.eqb_refl. cbn [completed].
    rewrite map_unchanged.
    + destruct (completed t); simpl; lia.
    + intros y Hy. destruct (Z.eqb_spec (id y) (id t)) as [E|_]; [|reflexivity].
      exfalso. apply Hx. rewrite <- E. now apply in_map.
  - cbn [map List.filter].
    destruct (Z.eqb_spec (id x) (id t)) as [E|_].
    + exfalso. apply Hx. rewrite E. now apply in_map.
    + specialize (IH Hl Hin). destruct (completed x); simpl; lia.
Qed.

(** X23.  With distinct ids, toggling a todo that exists moves exactly one
    todo between the active and the completed ones: the total stays, and
    the completed count goes up by one when the todo was active and down
    by one when it was completed. *)
Theorem toggle_moves_one_todo (now : Z) (s : TodoState) (t : Todo) :
  unique_ids s ->
  In t (todos s) ->
  let s' := todoReducer now s (TOGGLE_TODO (id t)) in
  total s' = total s /\
  completedCount s' + (if completed t then 1 else 0)
  = completedCount s + (if completed t then 0 else 1) /\
  activeCount s' + (if completed t then 0 else 1)
  = activeCount s + (if completed t then 1 else 0).
Proof.
  intros Hu Hin s'.
  assert (Ht : total s' = total s) by (unfold total, s'; simpl; apply length_map).
  assert (Hc : completedCount s' + (if completed t then 1 else 0)
               = completedCount s + (if completed t then 0 else 1)).
  { unfold completedCount, s'. cbn [todoReducer todos].
    now apply toggle_counts. }
  split; [exact Ht|]. split; [exact Hc|].
  assert (A : total s = activeCount s + completedCount s)
    by (unfold total, activeCount, completedCount; apply filter_partition_length).
  assert (A' : total s' = activeCount s' + completedCount s')
    by (unfold total, activeCount, completedCount; apply filter_partition_length).
  destruct (completed t); lia.
Qed.

Lemma toggle_moves_one_todo_witness :
  let s' := todoReducer 0 initialTodoState (TOGGLE_TODO 2) in
  total s' = total initialTodoState /\
  completedCount s' + 1 = completedCount initialTodoState + 0 /\
  activeCount s' + 0 = activeCount initialTodoState + 1.
Proof.
  apply (@toggle_moves_one_todo 0 initialTodoState build_todo).
  - unfold unique_ids. simpl. repeat constructor; simpl; intuition discriminate.
  - simpl. tauto.
Defined.

(** X24.  [ADD_TODO] appends one active todo with the given text: the old
    todos stay in front, the total and the active count grow by one, and
    the new todo is shown last under the filters [all] and [active] but is
    not shown at all under the filter [completed]. *)
Theorem add_appends_an_active_todo (now : Z) (s : TodoState) (a : String.string) :
  let s' := todoReducer now s (ADD_TODO a) in
  todos s' = todos s ++ [mkTodo now a false] /\
  total s' = S (total s) /\
  activeCount s' = S (activeCount s) /\
  completedCount s' = completedCount s /\
  filteredTodos s'
  = match filter s with
    | completed_only => filteredTodos s
    | _ => filteredTodos s ++ [mkTodo now a false]
    end.
Proof.
  intros s'. unfold s', total, activeCount, completedCount, filteredTodos.
  cbn [todoReducer todos filter]. rewrite !filter_app, !length_app. simpl.
  repeat split; try lia.
  destruct (filter s); simpl; rewrite ?app_nil_r; reflexivity.
Qed.

End TodosSpec.
